(** * lineup-substitution: a substitution that keeps parameters lined up

    A shallow embedding of [lineup-substitution.c] (gnome-c-utils) and the
    properties of its alignment-aware search and replace.

    The program edits a [GtkTextBuffer] through [GtkTextIter] positions.
    The embedding keeps that view:
    - the buffer contents are a flat sequence of Unicode code points
      ([gunichar]), as [gtk_text_iter_get_char] sees them;
    - an iterator is a character offset into that sequence
      ([gtk_text_iter_get_offset]); a function that moves an iterator
      received by pointer returns the moved iterator;
    - the one [GtkTextMark] the program creates lives in the buffer and is
      moved by every insertion and deletion, as GTK does;
    - [g_assert], [g_assert_cmpint] and [g_error] end the process; a
      function that can reach one returns a [result];
    - the loop of [replace] over the following lines and the loop of
      [do_substitution] over the matches take a fuel argument, and running
      out of fuel is [None]: [replace] gives its loop the length of the text,
      which is shown to be enough ([replace_total]), and [do_substitution] is
      shown to end with some fuel ([do_substitution_terminates]).

    What is taken from the libraries rather than from this repository:
    the GTK and GtkSourceView calls are modelled from their documented
    behaviour on a buffer whose paragraph delimiter is the line feed.  A
    carriage return before a line feed is white space at the end of its
    line, which gives the program the same columns and the same lines; a
    carriage return alone or U+2029, which GTK takes as the end of a
    paragraph, is ordinary white space here.  Command-line
    strings are taken as already decoded from UTF-8, so [g_utf8_strlen] is
    the length of the list.  The visual column GtkSourceView counts is a
    natural number; where the program stores it, or a value computed from
    it, in a [gint], the conversion to 32 bits is written out ([to_gint]). *)

From Stdlib Require Import List ZArith NArith Lia Bool Arith.
From Stdlib Require String Ascii.
Import ListNotations String.StringSyntax.
Delimit Scope string_scope with string.

(** ** Characters *)

Definition gunichar := N.

Definition LF : gunichar := 10%N.
Definition TAB : gunichar := 9%N.
Definition SPACE : gunichar := 32%N.
Definition LPAREN : gunichar := 40%N.

Definition is_LF (c : gunichar) : bool := N.eqb c LF.
Definition is_TAB (c : gunichar) : bool := N.eqb c TAB.
Definition is_LPAREN (c : gunichar) : bool := N.eqb c LPAREN.

(** [g_unichar_isspace]: tab, line feed, form feed and carriage return,
    and the Unicode categories Zs, Zl and Zp. *)
Definition g_unichar_isspace (c : gunichar) : bool :=
  (N.eqb c 9 || N.eqb c 10 || N.eqb c 12 || N.eqb c 13
   || N.eqb c 32 || N.eqb c 160 || N.eqb c 5760
   || (N.leb 8192 c && N.leb c 8202)
   || N.eqb c 8232 || N.eqb c 8233 || N.eqb c 8239 || N.eqb c 8287
   || N.eqb c 12288)%bool.

(** The code points of an ASCII string literal. *)
Definition chars (s : String.string) : list gunichar :=
  map Ascii.N_of_ascii (String.list_ascii_of_string s).

Arguments chars s%_string.

(** A text given line by line: the first line, then every further line
    behind a line feed. *)
Definition more_lines (ls : list (list gunichar)) : list gunichar :=
  concat (map (cons LF) ls).

Definition text_of_lines (ls : list (list gunichar)) : list gunichar :=
  match ls with
  | [] => []
  | l :: ls' => l ++ more_lines ls'
  end.

(** ** Integers of the C code *)

(** Conversion to [gint] (32 bits, two's complement). *)
Definition to_gint (z : Z) : Z :=
  ((z + 2147483648) mod 4294967296 - 2147483648)%Z.

(** [g_utf8_strlen (s, -1)] on a decoded string. *)
Definition g_utf8_strlen (s : list gunichar) : Z := Z.of_nat (length s).

(** [g_strnfill (n, c)] *)
Definition g_strnfill (n : nat) (c : gunichar) : list gunichar := repeat c n.

(** ** Fatal exits *)

Inductive failure : Type :=
| AssertStartsLine       (* g_assert (gtk_text_iter_starts_line (iter)) *)
| AssertNotIsEnd         (* g_assert (!gtk_text_iter_is_end (&start_text_iter)) *)
| AssertNotEndsLine      (* g_assert (!gtk_text_iter_ends_line (&start_text_iter)) *)
| AssertNewLength        (* g_assert_cmpint (new_length, >=, 0) *)
| AssertSearchText       (* g_assert (search_text[0] != '\0') *)
| AssertFilename         (* g_assert (filename[0] != '\0') *)
| ErrorSubstitution      (* g_error ("Error when doing the substitution: %s") *)
| ErrorLoading           (* g_error ("Error when loading file: %s") *)
| ErrorSaving.           (* g_error ("Error when saving file: %s") *)

Inductive result (A : Type) : Type :=
| Ok (a : A)
| Abort (f : failure).

Arguments Ok {A} a.
Arguments Abort {A} f.

Definition bind {A B : Type} (r : result A) (k : A -> result B) : result B :=
  match r with
  | Ok a => k a
  | Abort f => Abort f
  end.

Notation "x <- r ;; k" := (bind r (fun x => k))
  (at level 61, r at next level, right associativity).

Definition g_assert (b : bool) (f : failure) : result unit :=
  if b then Ok tt else Abort f.

(** ** The text buffer *)

Record GtkTextBuffer : Type := mkBuffer {
  text : list gunichar;
  mark : option nat
}.

Definition GtkTextIter := nat.

Definition gtk_text_buffer_get_start_iter (b : GtkTextBuffer) : GtkTextIter := 0.

(** [gtk_text_iter_get_char]: 0 at the end iterator. *)
Definition gtk_text_iter_get_char (t : list gunichar) (i : GtkTextIter) : gunichar :=
  nth i t 0%N.

Definition gtk_text_iter_is_end (t : list gunichar) (i : GtkTextIter) : bool :=
  length t <=? i.

Definition gtk_text_iter_ends_line (t : list gunichar) (i : GtkTextIter) : bool :=
  gtk_text_iter_is_end t i || is_LF (gtk_text_iter_get_char t i).

(** [gtk_text_iter_starts_line]: the line offset is 0. *)
Definition gtk_text_iter_starts_line (t : list gunichar) (i : GtkTextIter) : bool :=
  match i with
  | 0 => true
  | S j => is_LF (gtk_text_iter_get_char t j)
  end.

(** [gtk_text_iter_set_line_offset (iter, 0)]: back to the start of the line. *)
Fixpoint line_start (t : list gunichar) (i : GtkTextIter) : GtkTextIter :=
  match i with
  | 0 => 0
  | S j => if is_LF (gtk_text_iter_get_char t j) then i else line_start t j
  end.

(** Number of characters before the next line feed. *)
Fixpoint to_line_end (rest : list gunichar) : nat :=
  match rest with
  | [] => 0
  | c :: r => if is_LF c then 0 else S (to_line_end r)
  end.

(** [gtk_text_iter_forward_to_line_end]: to the delimiter of the line, or of
    the next line when already on a delimiter. *)
Definition gtk_text_iter_forward_to_line_end (t : list gunichar) (i : GtkTextIter)
  : GtkTextIter :=
  if gtk_text_iter_is_end t i then i
  else if is_LF (gtk_text_iter_get_char t i)
       then S i + to_line_end (skipn (S i) t)
       else i + to_line_end (skipn i t).

(** [gtk_text_iter_forward_line]: to the start of the next line and [true]
    when that is a dereferenceable position; on the last line, to the end of
    the buffer and [false]. *)
Definition gtk_text_iter_forward_line (t : list gunichar) (i : GtkTextIter)
  : bool * GtkTextIter :=
  let e := i + to_line_end (skipn i t) in
  if gtk_text_iter_is_end t e then (false, length t)
  else (negb (gtk_text_iter_is_end t (S e)), S e).

(** Offset of the first character satisfying [p]. *)
Fixpoint find_char (p : gunichar -> bool) (rest : list gunichar) : option nat :=
  match rest with
  | [] => None
  | c :: r => if p c then Some 0
              else match find_char p r with
                   | Some k => Some (S k)
                   | None => None
                   end
  end.

(** [gtk_text_iter_forward_search (iter, "(", TEXT_ONLY, NULL, &match_end, limit)]:
    the first parenthesis at or after [iter], accepted when it ends at or
    before [limit]; the result is [match_end]. *)
Definition gtk_text_iter_forward_search_paren
  (t : list gunichar) (i limit : GtkTextIter) : option GtkTextIter :=
  if limit <=? i then None
  else match find_char is_LPAREN (skipn i t) with
       | Some k => if S (i + k) <=? limit then Some (S (i + k)) else None
       | None => None
       end.

(** One step of the column count of [gtk_source_view_get_visual_column],
    with the default tab width of a [GtkSourceView]. *)
Definition tab_width : nat := 8.

Definition advance_column (column : nat) (c : gunichar) : nat :=
  if is_TAB c then column + (tab_width - column mod tab_width) else S column.

Definition column_of (l : list gunichar) : nat := fold_left advance_column l 0.

(** [gtk_source_view_get_visual_column]: the characters from the start of the
    line up to [iter], tabs expanded. *)
Definition gtk_source_view_get_visual_column (t : list gunichar) (i : GtkTextIter)
  : nat :=
  let s := line_start t i in
  column_of (firstn (i - s) (skipn s t)).

(** Marks follow the edits: a mark inside a deleted range collapses to its
    start; a mark created with [left_gravity = FALSE] stays to the right of
    text inserted at it. *)
Definition mark_after_delete (s e : nat) (m : nat) : nat :=
  if m <=? s then m else if m <=? e then s else m - (e - s).

Definition mark_after_insert (i n : nat) (m : nat) : nat :=
  if m <? i then m else m + n.

(** [gtk_text_buffer_delete]: both iterators are revalidated at the place of
    the deletion. *)
Definition gtk_text_buffer_delete (b : GtkTextBuffer) (s e : GtkTextIter)
  : GtkTextBuffer * GtkTextIter :=
  (mkBuffer (firstn s (text b) ++ skipn e (text b))
            (option_map (mark_after_delete s e) (mark b)),
   s).

(** [gtk_text_buffer_insert]: the iterator is revalidated at the end of the
    inserted text. *)
Definition gtk_text_buffer_insert (b : GtkTextBuffer) (i : GtkTextIter)
  (txt : list gunichar) : GtkTextBuffer * GtkTextIter :=
  (mkBuffer (firstn i (text b) ++ txt ++ skipn i (text b))
            (option_map (mark_after_insert i (length txt)) (mark b)),
   i + length txt).

Definition gtk_text_buffer_create_mark (b : GtkTextBuffer) (i : GtkTextIter)
  : GtkTextBuffer :=
  mkBuffer (text b) (Some i).

Definition gtk_text_buffer_get_iter_at_mark (b : GtkTextBuffer) (dflt : GtkTextIter)
  : GtkTextIter :=
  match mark b with
  | Some m => m
  | None => dflt
  end.

Definition gtk_text_buffer_delete_mark (b : GtkTextBuffer) : GtkTextBuffer :=
  mkBuffer (text b) None.

(** ** The search context *)

Fixpoint starts_with (needle rest : list gunichar) : bool :=
  match needle, rest with
  | [], _ => true
  | _ :: _, [] => false
  | a :: n', c :: r => N.eqb a c && starts_with n' r
  end.

(** Offset of the first occurrence of [needle]. *)
Fixpoint find_text (needle rest : list gunichar) : option nat :=
  if starts_with needle rest then Some 0
  else match rest with
       | [] => None
       | _ :: r => match find_text needle r with
                   | Some k => Some (S k)
                   | None => None
                   end
       end.

(** [gtk_source_search_context_forward]: the first occurrence of the search
    text that starts at or after [iter]; the search is literal, case
    sensitive, not at word boundaries and does not wrap around.  An empty
    search text disables the search. *)
Definition gtk_source_search_context_forward
  (needle : list gunichar) (t : list gunichar) (i : GtkTextIter)
  : option (GtkTextIter * GtkTextIter) :=
  match needle with
  | [] => None
  | _ :: _ =>
      match find_text needle (skipn i t) with
      | Some k => Some (i + k, i + k + length needle)
      | None => None
      end
  end.

(** [gtk_source_search_context_replace]: when the two iterators delimit the
    match the search finds at [match_start], that text is deleted and the
    replacement inserted in its place; otherwise nothing is done.  The second
    component tells whether a [GError] was set, which only a regular
    expression search can do. *)
Definition gtk_source_search_context_replace
  (needle : list gunichar) (b : GtkTextBuffer)
  (match_start match_end : GtkTextIter) (replace_text : list gunichar)
  : GtkTextBuffer * bool :=
  match gtk_source_search_context_forward needle (text b) match_start with
  | Some (s, e) =>
      if (s =? match_start) && (e =? match_end)
      then let (b1, i1) := gtk_text_buffer_delete b match_start match_end in
           let (b2, _) := gtk_text_buffer_insert b1 i1 replace_text in
           (b2, false)
      else (b, false)
  | None => (b, false)
  end.

(** ** The program *)

Record Sub : Type := mkSub {
  search_text : list gunichar;
  replacement : list gunichar;
  file : list gunichar;
  buffer : GtkTextBuffer
}.

Definition set_buffer (sub : Sub) (b : GtkTextBuffer) : Sub :=
  mkSub (search_text sub) (replacement sub) (file sub) b.

Definition sub_new (search_text replacement filename : list gunichar) : result Sub :=
  _ <- g_assert (negb (length search_text =? 0)) AssertSearchText ;;
  _ <- g_assert (negb (length filename =? 0)) AssertFilename ;;
  Ok (mkSub search_text replacement filename (mkBuffer [] None)).

Definition get_parenthesis_column (sub : Sub) (iter : GtkTextIter) : Z :=
  let t := text (buffer sub) in
  let limit := if gtk_text_iter_ends_line t iter then iter
               else gtk_text_iter_forward_to_line_end t iter in
  match gtk_text_iter_forward_search_paren t iter limit with
  | Some match_end => to_gint (Z.of_nat (gtk_source_view_get_visual_column t match_end))
  | None => (-1)%Z
  end.

(** The loop of [forward_iter_to_text_start]: the number of characters it
    steps over. *)
Fixpoint skip_blank (rest : list gunichar) : nat :=
  match rest with
  | [] => 0
  | c :: r => if is_LF c then 0
              else if g_unichar_isspace c then S (skip_blank r) else 0
  end.

Definition forward_iter_to_text_start (t : list gunichar) (iter : GtkTextIter)
  : result GtkTextIter :=
  _ <- g_assert (gtk_text_iter_starts_line t iter) AssertStartsLine ;;
  Ok (iter + skip_blank (skipn iter t)).

Definition get_text_start_column (sub : Sub) (start_iter : GtkTextIter) : result Z :=
  let t := text (buffer sub) in
  _ <- g_assert (gtk_text_iter_starts_line t start_iter) AssertStartsLine ;;
  iter <- forward_iter_to_text_start t start_iter ;;
  if gtk_text_iter_is_end t iter || gtk_text_iter_ends_line t iter
  then Ok (-1)%Z
  else Ok (to_gint (Z.of_nat (gtk_source_view_get_visual_column t iter))).

(** The loop of [indentation_contains_tab]. *)
Fixpoint scan_tab (rest : list gunichar) : bool :=
  match rest with
  | [] => false
  | c :: r => if is_LF c then false
              else if is_TAB c then true
              else if g_unichar_isspace c then scan_tab r else false
  end.

Definition indentation_contains_tab (t : list gunichar) (line_iter : GtkTextIter)
  : bool :=
  scan_tab (skipn (line_start t line_iter) t).

(** [new_length] of [adjust_alignment]: a [gint] that receives a [glong]
    expression. *)
Definition new_length_of (sub : Sub) (text_start_column : Z) : Z :=
  to_gint (text_start_column - g_utf8_strlen (search_text sub)
           + g_utf8_strlen (replacement sub)).

(** The indentation [adjust_alignment] inserts. *)
Definition indentation (tabs : bool) (new_length : Z) : list gunichar :=
  if tabs
  then g_strnfill (Z.to_nat (Z.quot new_length 8)) TAB
       ++ g_strnfill (Z.to_nat (Z.rem new_length 8)) SPACE
  else g_strnfill (Z.to_nat new_length) SPACE.

Definition adjust_alignment (sub : Sub) (iter : GtkTextIter)
  : result (Sub * GtkTextIter) :=
  let t := text (buffer sub) in
  _ <- g_assert (gtk_text_iter_starts_line t iter) AssertStartsLine ;;
  start_text_iter <- forward_iter_to_text_start t iter ;;
  _ <- g_assert (negb (gtk_text_iter_is_end t start_text_iter)) AssertNotIsEnd ;;
  _ <- g_assert (negb (gtk_text_iter_ends_line t start_text_iter)) AssertNotEndsLine ;;
  column <- get_text_start_column sub iter ;;
  let new_length := new_length_of sub column in
  _ <- g_assert (0 <=? new_length)%Z AssertNewLength ;;
  let tabs := indentation_contains_tab t iter in
  let (b1, iter1) := gtk_text_buffer_delete (buffer sub) iter start_text_iter in
  let (b2, iter2) := gtk_text_buffer_insert b1 iter1 (indentation tabs new_length) in
  Ok (set_buffer sub b2, line_start (text b2) iter2).

(** The loop of [replace] over the lines that follow the match. *)
Fixpoint replace_loop (fuel : nat) (sub : Sub) (parenthesis_column : Z)
  (next_line : GtkTextIter) : option (result Sub) :=
  match fuel with
  | 0 => None
  | S fuel' =>
      let (more, next_line1) :=
        gtk_text_iter_forward_line (text (buffer sub)) next_line in
      if more then
        match get_text_start_column sub next_line1 with
        | Abort f => Some (Abort f)
        | Ok text_start_column =>
            if (text_start_column =? parenthesis_column)%Z
            then match adjust_alignment sub next_line1 with
                 | Abort f => Some (Abort f)
                 | Ok (sub1, next_line2) =>
                     replace_loop fuel' sub1 parenthesis_column next_line2
                 end
            else Some (Ok sub)
        end
      else Some (Ok sub)
  end.

(** [replace]; the result carries the revalidated [match_end].  The loop runs
    once per following line at most, so the length of the text bounds it. *)
Definition replace (sub : Sub) (match_start match_end : GtkTextIter)
  : option (result (Sub * GtkTextIter)) :=
  let b0 := gtk_text_buffer_create_mark (buffer sub) match_end in
  let sub0 := set_buffer sub b0 in
  let parenthesis_column := get_parenthesis_column sub0 match_end in
  let (b1, error) :=
    gtk_source_search_context_replace
      (search_text sub) b0 match_start match_end (replacement sub) in
  if error then Some (Abort ErrorSubstitution)
  else
    let sub1 := set_buffer sub b1 in
    let match_end1 := gtk_text_buffer_get_iter_at_mark b1 match_end in
    let looped :=
      if negb (parenthesis_column =? -1)%Z
      then replace_loop (S (length (text b1))) sub1 parenthesis_column match_end1
      else Some (Ok sub1) in
    match looped with
    | None => None
    | Some (Abort f) => Some (Abort f)
    | Some (Ok sub2) =>
        let match_end2 := gtk_text_buffer_get_iter_at_mark (buffer sub2) match_end1 in
        Some (Ok (set_buffer sub2 (gtk_text_buffer_delete_mark (buffer sub2)),
                  match_end2))
    end.

(** [replace] as the design rationale of the specification words it: the
    column of the parenthesis is derived from the text once the replacement
    is made.  It is here to be compared with [replace], which takes the
    column before it replaces (line 329 of the source, before line 331). *)
Definition replace_rederiving_anchor (sub : Sub) (match_start match_end : GtkTextIter)
  : option (result (Sub * GtkTextIter)) :=
  let b0 := gtk_text_buffer_create_mark (buffer sub) match_end in
  let (b1, error) :=
    gtk_source_search_context_replace
      (search_text sub) b0 match_start match_end (replacement sub) in
  if error then Some (Abort ErrorSubstitution)
  else
    let sub1 := set_buffer sub b1 in
    let match_end1 := gtk_text_buffer_get_iter_at_mark b1 match_end in
    let parenthesis_column := get_parenthesis_column sub1 match_end1 in
    let looped :=
      if negb (parenthesis_column =? -1)%Z
      then replace_loop (S (length (text b1))) sub1 parenthesis_column match_end1
      else Some (Ok sub1) in
    match looped with
    | None => None
    | Some (Abort f) => Some (Abort f)
    | Some (Ok sub2) =>
        let match_end2 := gtk_text_buffer_get_iter_at_mark (buffer sub2) match_end1 in
        Some (Ok (set_buffer sub2 (gtk_text_buffer_delete_mark (buffer sub2)),
                  match_end2))
    end.

(** The loop of [do_substitution], from the position [iter]. *)
Fixpoint do_substitution_loop (fuel : nat) (sub : Sub) (iter : GtkTextIter)
  : option (result Sub) :=
  match fuel with
  | 0 => None
  | S fuel' =>
      match gtk_source_search_context_forward
              (search_text sub) (text (buffer sub)) iter with
      | None => Some (Ok sub)
      | Some (match_start, match_end) =>
          match replace sub match_start match_end with
          | None => None
          | Some (Abort f) => Some (Abort f)
          | Some (Ok (sub1, match_end1)) =>
              do_substitution_loop fuel' sub1 match_end1
          end
      end
  end.

Definition do_substitution (fuel : nat) (sub : Sub) : option (result Sub) :=
  do_substitution_loop fuel sub (gtk_text_buffer_get_start_iter (buffer sub)).

(** ** The command line

    The file loader and the file saver are outside the program: [load_file]
    gives the text the loader puts in the buffer, or nothing when it reports
    an error, and [save_file_ok] tells whether the saver succeeds.  The
    callbacks the main loop runs are taken in the order they run: the file is
    loaded, [load_cb] substitutes and starts the saving, [save_cb] leaves the
    main loop.  [gtk_init] is taken to succeed. *)

Record Env : Type := mkEnv {
  load_file : list gunichar -> option (list gunichar);
  save_file_ok : list gunichar -> list gunichar -> bool
}.

(** What the process does that can be seen from outside. *)
Inductive event : Type :=
| PrintErr (message : list gunichar)
| LoadFile (filename : list gunichar)
| SaveFile (filename contents : list gunichar).

(** How the process ends: [return] from [main], or [abort ()]. *)
Inductive termination : Type :=
| Exit (code : Z)
| Aborted (f : failure).

Definition EXIT_SUCCESS : Z := 0.
Definition EXIT_FAILURE : Z := 1.

Definition save_cb (saved : bool) : termination :=
  if saved then Exit EXIT_SUCCESS else Aborted ErrorSaving.

Definition save_file (env : Env) (sub : Sub) : termination * list event :=
  (save_cb (save_file_ok env (file sub) (text (buffer sub))),
   [SaveFile (file sub) (text (buffer sub))]).

Definition load_cb (fuel : nat) (env : Env) (sub : Sub)
  (loaded : option (list gunichar)) : option (termination * list event) :=
  match loaded with
  | None => Some (Aborted ErrorLoading, [])
  | Some t =>
      match do_substitution fuel (set_buffer sub (mkBuffer t None)) with
      | None => None
      | Some (Abort f) => Some (Aborted f, [])
      | Some (Ok sub1) => Some (save_file env sub1)
      end
  end.

Definition sub_launch (fuel : nat) (env : Env) (sub : Sub)
  : option (termination * list event) :=
  match load_cb fuel env sub (load_file env (file sub)) with
  | None => None
  | Some (t, events) => Some (t, LoadFile (file sub) :: events)
  end.

Definition usage (program : list gunichar) : list event :=
  [PrintErr (chars "Usage: " ++ program
             ++ chars " <search-text> <replacement> <file>" ++ [LF]);
   PrintErr (chars "WARNING: the script modifies <file>!" ++ [LF])].

(** [main]: [argv] holds the name of the program and its arguments. *)
Definition main (fuel : nat) (env : Env) (argv : list (list gunichar))
  : option (termination * list event) :=
  if negb (length argv =? 4)
  then Some (Exit EXIT_FAILURE, usage (nth 0 argv (chars "(null)")))
  else
    match sub_new (nth 1 argv []) (nth 2 argv []) (nth 3 argv []) with
    | Abort f => Some (Aborted f, [])
    | Ok sub => sub_launch fuel env sub
    end.

(** Whether an event reads or writes a file. *)
Definition touches_file (e : event) : bool :=
  match e with
  | PrintErr _ => false
  | LoadFile _ => true
  | SaveFile _ _ => true
  end.

(** Number of line feeds of a text. *)
Definition count_LF (t : list gunichar) : nat := length (filter is_LF t).

(** A whole run on a buffer holding [t], for the examples. *)
Definition run (fuel : nat) (search replace_text t : list gunichar)
  : option (result (list gunichar)) :=
  match do_substitution fuel (mkSub search replace_text [] (mkBuffer t None)) with
  | None => None
  | Some (Abort f) => Some (Abort f)
  | Some (Ok sub) => Some (Ok (text (buffer sub)))
  end.

(** ** The same steps told line by line

    The properties below speak of lines; these definitions give, for one line
    without its line feed, what the program computes on it through the
    buffer.  They are related to the functions above by the lemmas of the
    section on lines. *)

Definition noLF (l : list gunichar) : Prop := Forall (fun c => is_LF c = false) l.

(** What follows a line: the end of the buffer or a line feed. *)
Definition at_line_end (rest : list gunichar) : Prop :=
  match rest with
  | [] => True
  | c :: _ => is_LF c = true
  end.

(** A character of an indentation: white space that does not end the line. *)
Definition blank (c : gunichar) : bool := negb (is_LF c) && g_unichar_isspace c.

(** First line and further lines of a text. *)
Fixpoint split_lines (t : list gunichar) : list gunichar * list (list gunichar) :=
  match t with
  | [] => ([], [])
  | c :: r => let (l, ls) := split_lines r in
              if is_LF c then ([], l :: ls) else (c :: l, ls)
  end.

(** The text of the line in which a text ends. *)
Definition last_line (t : list gunichar) : list gunichar :=
  skipn (line_start t (length t)) t.

(** Visual column of the first character that is not white space, -1 for a
    line without one: [get_text_start_column] on the line. *)
Definition line_column (l : list gunichar) : Z :=
  let k := skip_blank l in
  if length l <=? k then (-1)%Z
  else to_gint (Z.of_nat (column_of (firstn k l))).

(** [adjust_alignment] on the line. *)
Definition realign_line (sub : Sub) (l : list gunichar) : result (list gunichar) :=
  let new_length := new_length_of sub (line_column l) in
  if (0 <=? new_length)%Z
  then Ok (indentation (scan_tab l) new_length ++ skipn (skip_blank l) l)
  else Abort AssertNewLength.

(** The loop of [replace] on the lines after the match: the lines are
    realigned as long as their text starts at the column of the parenthesis,
    and the first other line ends the loop. *)
Fixpoint realign_run (sub : Sub) (parenthesis_column : Z) (ls : list (list gunichar))
  : result (list (list gunichar)) :=
  match ls with
  | [] => Ok []
  | l :: ls' =>
      if (line_column l =? parenthesis_column)%Z
      then l1 <- realign_line sub l ;;
           ls1 <- realign_run sub parenthesis_column ls' ;;
           Ok (l1 :: ls1)
      else Ok ls
  end.

(** A line realigned on the column [parenthesis_column]. *)
Definition realigned (sub : Sub) (parenthesis_column : Z) (l : list gunichar)
  : list gunichar :=
  indentation (scan_tab l) (new_length_of sub parenthesis_column)
  ++ skipn (skip_blank l) l.

(** [get_parenthesis_column] on the line: [before] is the text of the line up
    to the end of the match, [l] the rest of the line. *)
Definition anchor_column (before l : list gunichar) : Z :=
  match find_char is_LPAREN l with
  | Some k => to_gint (Z.of_nat (column_of (before ++ firstn (S k) l)))
  | None => (-1)%Z
  end.

(** The mark of the buffer, if any, lies before the position [i]. *)
Definition mark_before (b : GtkTextBuffer) (i : nat) : Prop :=
  match mark b with
  | None => True
  | Some m => m < i
  end.

(** ** Plain substitution, for comparison

    What follows is no function of the program: it is the search and replace
    without alignment that the run is compared with. *)

(** The substitution of every occurrence, read from left to right, the search
    going on behind each occurrence.  [skip] counts the characters of the
    occurrence just replaced that are still to be dropped. *)
Fixpoint substitute_from (s r : list gunichar) (skip : nat) (t : list gunichar)
  : list gunichar :=
  match t with
  | [] => []
  | c :: t' =>
      match skip with
      | S k => substitute_from s r k t'
      | 0 => if starts_with s t
             then r ++ substitute_from s r (length s - 1) t'
             else c :: substitute_from s r 0 t'
      end
  end.

(** An empty search text matches nothing. *)
Definition plain_substitution (s r t : list gunichar) : list gunichar :=
  match s with
  | [] => t
  | _ :: _ => substitute_from s r 0 t
  end.

(** A character that is a space, a line feed or no white space: a text of
    such characters has no tab and no other white space in it. *)
Definition space_or_text (c : gunichar) : bool :=
  negb (g_unichar_isspace c) || N.eqb c SPACE || is_LF c.

(** The condition on the text behind the position of the search: its white
    space is made of spaces and line feeds, and its columns fit a [gint]. *)
Definition spaces_within_gint (x : list gunichar) : Prop :=
  Forall (fun c => space_or_text c = true) x
  /\ (Z.of_nat (length x) < 2147483648)%Z.

(** A text without the indentation of its lines: the white space that follows
    a line feed is dropped.  [at_start] tells whether the text starts at the
    start of a line. *)
Fixpoint unindent (at_start : bool) (t : list gunichar) : list gunichar :=
  match t with
  | [] => []
  | c :: r =>
      if is_LF c then c :: unindent true r
      else if at_start && g_unichar_isspace c then unindent true r
      else c :: unindent false r
  end.

(** A search text that holds no line feed and starts with a character that is
    not white space: its occurrences lie in the text of one line. *)
Definition within_a_line (s : list gunichar) : Prop :=
  noLF s /\ match s with
            | [] => False
            | a :: _ => g_unichar_isspace a = false
            end.

(** Two lines with the same text behind their indentation. *)
Definition same_text (l1 l : list gunichar) : Prop :=
  exists ws1 ws body,
    l1 = ws1 ++ body /\ l = ws ++ body
    /\ Forall (fun c => blank c = true) ws1 /\ Forall (fun c => blank c = true) ws.

(** Length of the longest line of a text that starts [cur] characters into
    a line. *)
Fixpoint longest_from (cur : nat) (t : list gunichar) : nat :=
  match t with
  | [] => cur
  | c :: r => if is_LF c then Nat.max cur (longest_from 0 r)
              else longest_from (S cur) r
  end.

(** Side conditions on given texts: a property of every character or of
    every line, and a value to evaluate. *)
Ltac each := solve [ repeat constructor ].

Ltac computed :=
  solve [ vm_compute; first [ reflexivity | discriminate | split; congruence ] ].

(** * Properties *)

(** ** Lists and offsets *)

Lemma is_LF_true (c : gunichar) : is_LF c = true <-> c = LF.
Proof. unfold is_LF. apply N.eqb_eq. Qed.

Lemma noLF_app (a b : list gunichar) : noLF (a ++ b) <-> noLF a /\ noLF b.
Proof. unfold noLF. apply Forall_app. Qed.

Lemma noLF_cons (c : gunichar) (l : list gunichar) :
  noLF (c :: l) <-> is_LF c = false /\ noLF l.
Proof. unfold noLF. apply Forall_cons_iff. Qed.

Lemma noLF_nil : noLF [].
Proof. constructor. Qed.

Lemma noLF_repeat (c : gunichar) (n : nat) : is_LF c = false -> noLF (repeat c n).
Proof.
  intros Hc. induction n as [|n IH]; simpl.
  - apply noLF_nil.
  - apply noLF_cons. split; assumption.
Qed.

Lemma noLF_skipn (n : nat) (l : list gunichar) : noLF l -> noLF (skipn n l).
Proof.
  intros H. rewrite <- (firstn_skipn n l) in H. apply noLF_app in H. tauto.
Qed.

Lemma more_lines_cons (l : list gunichar) (ls : list (list gunichar)) :
  more_lines (l :: ls) = LF :: l ++ more_lines ls.
Proof. reflexivity. Qed.


Lemma more_lines_at_line_end (ls : list (list gunichar)) : at_line_end (more_lines ls).
Proof. destruct ls; simpl; auto. Qed.

Lemma nth_app_at (a b : list gunichar) (k : nat) :
  nth (length a + k) (a ++ b) 0%N = nth k b 0%N.
Proof. rewrite app_nth2 by lia. f_equal. lia. Qed.

Lemma skipn_app_at (a b : list gunichar) (k : nat) :
  skipn (length a + k) (a ++ b) = skipn k b.
Proof.
  rewrite skipn_app. rewrite skipn_all2 by lia. simpl. f_equal. lia.
Qed.

Lemma skipn_app_exact (a b : list gunichar) : skipn (length a) (a ++ b) = b.
Proof. rewrite <- (Nat.add_0_r (length a)). rewrite skipn_app_at. reflexivity. Qed.

Lemma firstn_app_exact (a b : list gunichar) : firstn (length a) (a ++ b) = a.
Proof.
  rewrite firstn_app, Nat.sub_diag, firstn_all. simpl. apply app_nil_r.
Qed.

Lemma to_line_end_app (l r : list gunichar) :
  noLF l -> to_line_end (l ++ r) = length l + to_line_end r.
Proof.
  induction l as [|c l IH]; intros H; simpl.
  - reflexivity.
  - apply noLF_cons in H. destruct H as [Hc Hl]. rewrite Hc, IH by assumption.
    reflexivity.
Qed.

Lemma to_line_end_at_line_end (r : list gunichar) : at_line_end r -> to_line_end r = 0.
Proof. destruct r as [|c r]; simpl; intros H; [reflexivity | rewrite H; reflexivity]. Qed.

Lemma to_line_end_line (l r : list gunichar) :
  noLF l -> at_line_end r -> to_line_end (l ++ r) = length l.
Proof.
  intros Hl Hr. rewrite to_line_end_app, to_line_end_at_line_end by assumption. lia.
Qed.

(** ** Iterators on a line of the buffer *)

Lemma starts_line_after_LF (p r : list gunichar) :
  gtk_text_iter_starts_line (p ++ LF :: r) (S (length p)) = true.
Proof.
  simpl. unfold gtk_text_iter_get_char.
  rewrite <- (Nat.add_0_r (length p)), nth_app_at. reflexivity.
Qed.

Lemma starts_line_prefix (p a b : list gunichar) :
  gtk_text_iter_starts_line (p ++ a) (length p)
  = gtk_text_iter_starts_line (p ++ b) (length p).
Proof.
  destruct (length p) as [|j] eqn:E; simpl; [reflexivity|].
  unfold gtk_text_iter_get_char. rewrite !app_nth1 by lia. reflexivity.
Qed.

Lemma nth_noLF (l : list gunichar) (k : nat) :
  noLF l -> k < length l -> is_LF (nth k l 0%N) = false.
Proof.
  intros H Hk. unfold noLF in H. rewrite Forall_forall in H.
  apply H. apply nth_In. exact Hk.
Qed.

Lemma line_start_in_line (p l r : list gunichar) (k : nat) :
  gtk_text_iter_starts_line (p ++ l ++ r) (length p) = true ->
  noLF l -> k <= length l ->
  line_start (p ++ l ++ r) (length p + k) = length p.
Proof.
  intros Hs Hl. induction k as [|k IH]; intros Hk.
  - rewrite Nat.add_0_r. destruct (length p) as [|j] eqn:E; simpl; [reflexivity|].
    simpl in Hs. rewrite Hs. reflexivity.
  - rewrite Nat.add_succ_r. simpl. unfold gtk_text_iter_get_char.
    rewrite nth_app_at, app_nth1 by lia. rewrite nth_noLF by (assumption || lia).
    apply IH. lia.
Qed.

Lemma visual_column_in_line (p l r : list gunichar) (k : nat) :
  gtk_text_iter_starts_line (p ++ l ++ r) (length p) = true ->
  noLF l -> k <= length l ->
  gtk_source_view_get_visual_column (p ++ l ++ r) (length p + k)
  = column_of (firstn k l).
Proof.
  intros Hs Hl Hk. unfold gtk_source_view_get_visual_column.
  rewrite line_start_in_line by assumption.
  replace (length p + k - length p) with k by lia.
  rewrite skipn_app_exact, firstn_app.
  replace (k - length l) with 0 by lia. simpl. rewrite app_nil_r. reflexivity.
Qed.

Lemma skip_blank_line (l r : list gunichar) :
  at_line_end r -> skip_blank (l ++ r) = skip_blank l.
Proof.
  intros Hr. induction l as [|c l IH]; simpl.
  - destruct r as [|c r]; simpl in *; [reflexivity | rewrite Hr; reflexivity].
  - rewrite IH. reflexivity.
Qed.

Lemma skip_blank_le (l : list gunichar) : skip_blank l <= length l.
Proof.
  induction l as [|c l IH]; simpl; [lia|].
  destruct (is_LF c); [lia|]. destruct (g_unichar_isspace c); lia.
Qed.

Lemma scan_tab_line (l r : list gunichar) :
  at_line_end r -> scan_tab (l ++ r) = scan_tab l.
Proof.
  intros Hr. induction l as [|c l IH]; simpl.
  - destruct r as [|c r]; simpl in *; [reflexivity | rewrite Hr; reflexivity].
  - rewrite IH. reflexivity.
Qed.

Lemma is_end_inside (p l r : list gunichar) (k : nat) :
  k < length l -> gtk_text_iter_is_end (p ++ l ++ r) (length p + k) = false.
Proof.
  intros Hk. unfold gtk_text_iter_is_end. apply Nat.leb_gt.
  rewrite !length_app. lia.
Qed.

Lemma ends_line_inside (p l r : list gunichar) (k : nat) :
  noLF l -> k < length l ->
  gtk_text_iter_ends_line (p ++ l ++ r) (length p + k) = false.
Proof.
  intros Hl Hk. unfold gtk_text_iter_ends_line.
  rewrite is_end_inside by assumption. simpl.
  unfold gtk_text_iter_get_char. rewrite nth_app_at, app_nth1 by lia.
  apply nth_noLF; assumption.
Qed.

Lemma ends_line_at_line_end (p r : list gunichar) :
  at_line_end r -> gtk_text_iter_ends_line (p ++ r) (length p) = true.
Proof.
  intros Hr. unfold gtk_text_iter_ends_line, gtk_text_iter_is_end, gtk_text_iter_get_char.
  destruct r as [|c r]; simpl in Hr.
  - rewrite app_nil_r, Nat.leb_refl. reflexivity.
  - rewrite <- (Nat.add_0_r (length p)) at 2. rewrite nth_app_at. simpl.
    rewrite Hr. apply orb_true_r.
Qed.

Section OnALine.

Variables (sub : Sub) (p l r : list gunichar).
Hypothesis Htext : text (buffer sub) = p ++ l ++ r.
Hypothesis Hstart : gtk_text_iter_starts_line (p ++ l ++ r) (length p) = true.
Hypothesis Hl : noLF l.
Hypothesis Hr : at_line_end r.

Lemma forward_iter_to_text_start_line :
  forward_iter_to_text_start (p ++ l ++ r) (length p)
  = Ok (length p + skip_blank l).
Proof.
  unfold forward_iter_to_text_start. rewrite Hstart. simpl.
  rewrite skipn_app_exact, skip_blank_line by assumption. reflexivity.
Qed.

Lemma get_text_start_column_line :
  get_text_start_column sub (length p) = Ok (line_column l).
Proof.
  unfold get_text_start_column. rewrite Htext, Hstart. simpl.
  rewrite forward_iter_to_text_start_line. simpl.
  unfold line_column. pose proof (skip_blank_le l) as Hle.
  destruct (length l <=? skip_blank l) eqn:E.
  - apply Nat.leb_le in E. assert (Hk : skip_blank l = length l) by lia.
    rewrite Hk.
    replace (p ++ l ++ r) with ((p ++ l) ++ r) by (rewrite <- app_assoc; reflexivity).
    rewrite <- length_app, ends_line_at_line_end by assumption.
    rewrite orb_true_r. reflexivity.
  - apply Nat.leb_gt in E.
    rewrite is_end_inside, ends_line_inside by assumption. simpl.
    rewrite visual_column_in_line by (assumption || lia). reflexivity.
Qed.

Lemma indentation_contains_tab_line :
  indentation_contains_tab (p ++ l ++ r) (length p) = scan_tab l.
Proof.
  unfold indentation_contains_tab.
  rewrite <- (Nat.add_0_r (length p)) at 1.
  rewrite line_start_in_line by (assumption || lia).
  rewrite skipn_app_exact. apply scan_tab_line. assumption.
Qed.

End OnALine.

Lemma mark_untouched (b : GtkTextBuffer) (i e n : nat) :
  mark_before b i ->
  option_map (mark_after_insert i n) (option_map (mark_after_delete i e) (mark b))
  = mark b.
Proof.
  unfold mark_before. destruct (mark b) as [m|]; simpl; [|reflexivity].
  intros Hm. unfold mark_after_delete, mark_after_insert.
  destruct (m <=? i) eqn:E1; [|apply Nat.leb_gt in E1; lia].
  destruct (m <? i) eqn:E2; [reflexivity|apply Nat.ltb_ge in E2; lia].
Qed.

Lemma indentation_noLF (tabs : bool) (n : Z) : noLF (indentation tabs n).
Proof.
  unfold indentation, g_strnfill. destruct tabs.
  - apply noLF_app. split; apply noLF_repeat; reflexivity.
  - apply noLF_repeat. reflexivity.
Qed.

Lemma realign_line_noLF (sub : Sub) (l l1 : list gunichar) :
  noLF l -> realign_line sub l = Ok l1 -> noLF l1.
Proof.
  unfold realign_line. intros Hl H.
  destruct (0 <=? new_length_of sub (line_column l))%Z; [|discriminate].
  injection H as <-. apply noLF_app. split.
  - apply indentation_noLF.
  - apply noLF_skipn. assumption.
Qed.

(** [adjust_alignment] at the start of a line that has text: the line is
    realigned, the rest of the buffer is unchanged and the iterator is back
    at the start of the line.  A mark before the line stays where it is. *)
Lemma adjust_alignment_on_line (sub : Sub) (p l r : list gunichar) :
  text (buffer sub) = p ++ l ++ r ->
  gtk_text_iter_starts_line (p ++ l ++ r) (length p) = true ->
  noLF l -> at_line_end r ->
  skip_blank l < length l ->
  exists m1,
    adjust_alignment sub (length p)
    = match realign_line sub l with
      | Ok l1 => Ok (set_buffer sub (mkBuffer (p ++ l1 ++ r) m1), length p)
      | Abort f => Abort f
      end
    /\ (mark_before (buffer sub) (length p) -> m1 = mark (buffer sub)).
Proof.
  intros Htext Hstart Hl Hr Hk.
  set (ind := indentation (scan_tab l) (new_length_of sub (line_column l))).
  exists (option_map (mark_after_insert (length p) (length ind))
            (option_map (mark_after_delete (length p) (length p + skip_blank l))
               (mark (buffer sub)))).
  split; [|intros Hm; apply mark_untouched; assumption].
  unfold adjust_alignment. rewrite Htext, Hstart. simpl.
  rewrite forward_iter_to_text_start_line by assumption. simpl.
  rewrite is_end_inside, ends_line_inside by assumption. simpl.
  rewrite (get_text_start_column_line sub p l r) by assumption. simpl.
  unfold realign_line.
  destruct (0 <=? new_length_of sub (line_column l))%Z; simpl; [|reflexivity].
  rewrite indentation_contains_tab_line by assumption.
  unfold gtk_text_buffer_delete, gtk_text_buffer_insert. simpl.
  rewrite Htext. fold ind.
  rewrite firstn_app_exact, skipn_app_at, skipn_app.
  replace (skip_blank l - length l) with 0 by lia. change (skipn 0 r) with r.
  rewrite firstn_app_exact, skipn_app_exact.
  replace (p ++ ind ++ skipn (skip_blank l) l ++ r)
    with (p ++ (ind ++ skipn (skip_blank l) l) ++ r)
    by (rewrite <- !app_assoc; reflexivity).
  f_equal. f_equal. apply line_start_in_line.
  - rewrite (starts_line_prefix p _ (l ++ r)). assumption.
  - apply noLF_app. split; [apply indentation_noLF | apply noLF_skipn; assumption].
  - rewrite length_app. lia.
Qed.

Lemma adjust_alignment_line (sub : Sub) (p l r : list gunichar) :
  text (buffer sub) = p ++ l ++ r ->
  gtk_text_iter_starts_line (p ++ l ++ r) (length p) = true ->
  noLF l -> at_line_end r ->
  skip_blank l < length l ->
  mark_before (buffer sub) (length p) ->
  adjust_alignment sub (length p)
  = match realign_line sub l with
    | Ok l1 => Ok (set_buffer sub (mkBuffer (p ++ l1 ++ r) (mark (buffer sub))),
                   length p)
    | Abort f => Abort f
    end.
Proof.
  intros Htext Hstart Hl Hr Hk Hm.
  destruct (adjust_alignment_on_line sub p l r Htext Hstart Hl Hr Hk) as [m1 [H Hm1]].
  rewrite H, (Hm1 Hm). reflexivity.
Qed.

(** ** The loop over the following lines *)

Lemma forward_line_last (a l0 : list gunichar) :
  noLF l0 ->
  gtk_text_iter_forward_line (a ++ l0) (length a) = (false, length (a ++ l0)).
Proof.
  intros Hl. unfold gtk_text_iter_forward_line.
  rewrite skipn_app_exact.
  pose proof (to_line_end_app l0 [] Hl) as E. rewrite app_nil_r in E.
  rewrite E. simpl. rewrite Nat.add_0_r.
  unfold gtk_text_iter_is_end. rewrite length_app, Nat.leb_refl. reflexivity.
Qed.

Lemma forward_line_next (a l0 l1 : list gunichar) (ls : list (list gunichar)) :
  noLF l0 ->
  gtk_text_iter_forward_line (a ++ l0 ++ more_lines (l1 :: ls)) (length a)
  = (negb (length (l1 ++ more_lines ls) =? 0), S (length a + length l0)).
Proof.
  intros Hl. unfold gtk_text_iter_forward_line.
  rewrite skipn_app_exact, to_line_end_line
    by (assumption || apply more_lines_at_line_end).
  unfold gtk_text_iter_is_end. rewrite more_lines_cons.
  rewrite !length_app. simpl length. rewrite length_app.
  destruct (_ <=? length a + length l0) eqn:E; [apply Nat.leb_le in E; lia|].
  f_equal. f_equal.
  destruct (length l1 + length (more_lines ls)) eqn:E1; simpl.
  - apply Nat.leb_le. lia.
  - apply Nat.leb_gt. lia.
Qed.

Lemma set_buffer_same (sub : Sub) :
  set_buffer sub (mkBuffer (text (buffer sub)) (mark (buffer sub))) = sub.
Proof. destruct sub as [s r f [t m]]. reflexivity. Qed.

Lemma realign_run_set_buffer (sub : Sub) (b : GtkTextBuffer) (pc : Z)
  (ls : list (list gunichar)) :
  realign_run (set_buffer sub b) pc ls = realign_run sub pc ls.
Proof.
  induction ls as [|l ls IH]; simpl; [reflexivity|].
  rewrite IH. reflexivity.
Qed.

Lemma line_column_blank (l : list gunichar) :
  length l <= skip_blank l -> line_column l = (-1)%Z.
Proof.
  intros H. unfold line_column. apply Nat.leb_le in H. rewrite H. reflexivity.
Qed.

Lemma replace_loop_lines (ls : list (list gunichar)) :
  forall (fuel : nat) (sub : Sub) (a l0 : list gunichar) (pc : Z),
    text (buffer sub) = a ++ l0 ++ more_lines ls ->
    mark_before (buffer sub) (S (length a + length l0)) ->
    noLF l0 -> Forall noLF ls -> length ls < fuel -> pc <> (-1)%Z ->
    replace_loop fuel sub pc (length a)
    = Some (match realign_run sub pc ls with
            | Ok ls1 => Ok (set_buffer sub
                              (mkBuffer (a ++ l0 ++ more_lines ls1)
                                        (mark (buffer sub))))
            | Abort f => Abort f
            end).
Proof.
  induction ls as [|l1 ls IH]; intros fuel sub a l0 pc Htext Hm Hl0 Hls Hfuel Hpc;
    (destruct fuel as [|fuel]; [simpl in Hfuel; lia|]); simpl replace_loop.
  - rewrite Htext. simpl more_lines. rewrite app_nil_r.
    rewrite forward_line_last by assumption. simpl.
    rewrite <- Htext, set_buffer_same. reflexivity.
  - inversion Hls as [|? ? Hl1 Hls']; subst.
    rewrite Htext, forward_line_next by assumption.
    assert (Hsplit : a ++ l0 ++ more_lines (l1 :: ls)
                     = (a ++ l0 ++ [LF]) ++ l1 ++ more_lines ls).
    { rewrite more_lines_cons, <- !app_assoc. reflexivity. }
    assert (Hlen : length (a ++ l0 ++ [LF]) = S (length a + length l0)).
    { rewrite !length_app. simpl. lia. }
    assert (Hstart : gtk_text_iter_starts_line
                       ((a ++ l0 ++ [LF]) ++ l1 ++ more_lines ls)
                       (length (a ++ l0 ++ [LF])) = true).
    { rewrite Hlen, <- Hsplit, more_lines_cons.
      replace (a ++ l0 ++ LF :: l1 ++ more_lines ls)
        with ((a ++ l0) ++ LF :: l1 ++ more_lines ls)
        by (rewrite <- app_assoc; reflexivity).
      rewrite <- length_app. apply starts_line_after_LF. }
    assert (Htext' : text (buffer sub) = (a ++ l0 ++ [LF]) ++ l1 ++ more_lines ls).
    { rewrite Htext. exact Hsplit. }
    assert (Hm' : mark_before (buffer sub) (length (a ++ l0 ++ [LF]))).
    { rewrite Hlen. exact Hm. }
    destruct (length (l1 ++ more_lines ls) =? 0) eqn:Eend; simpl negb; cbv iota.
    + apply Nat.eqb_eq in Eend. apply length_zero_iff_nil in Eend.
      apply app_eq_nil in Eend. destruct Eend as [-> Eend].
      cbn [realign_run].
      destruct (line_column [] =? pc)%Z eqn:E.
      * apply Z.eqb_eq in E. rewrite line_column_blank in E by (simpl; lia). congruence.
      * rewrite <- Htext, set_buffer_same. reflexivity.
    + rewrite <- Hlen.
      rewrite (get_text_start_column_line sub (a ++ l0 ++ [LF]) l1 (more_lines ls))
        by (assumption || apply more_lines_at_line_end).
      cbn [realign_run].
      destruct (line_column l1 =? pc)%Z eqn:E.
      * assert (Hk : skip_blank l1 < length l1).
        { apply Z.eqb_eq in E. pose proof (skip_blank_le l1).
          destruct (Nat.eq_dec (skip_blank l1) (length l1)) as [Heq|]; [|lia].
          rewrite line_column_blank in E by lia. congruence. }
        rewrite (adjust_alignment_line sub (a ++ l0 ++ [LF]) l1 (more_lines ls))
          by (assumption || apply more_lines_at_line_end).
        destruct (realign_line sub l1) as [l1'|f] eqn:Er; simpl bind; [|reflexivity].
        rewrite (IH fuel _ (a ++ l0 ++ [LF]) l1' pc).
        -- rewrite realign_run_set_buffer. simpl.
           destruct (realign_run sub pc ls) as [ls1|f]; simpl; [|reflexivity].
           rewrite more_lines_cons, <- !app_assoc. reflexivity.
        -- reflexivity.
        -- unfold mark_before in *. cbn [mark buffer set_buffer].
           destruct (mark (buffer sub)); [lia | exact I].
        -- eapply realign_line_noLF; eassumption.
        -- assumption.
        -- simpl in Hfuel. lia.
        -- assumption.
      * rewrite <- Htext, set_buffer_same. reflexivity.
Qed.

(** ** One replacement *)

Lemma starts_with_app (s x : list gunichar) : starts_with s (s ++ x) = true.
Proof.
  induction s as [|c s IH]; simpl; [reflexivity|].
  rewrite N.eqb_refl, IH. reflexivity.
Qed.

Lemma find_text_here (s x : list gunichar) : find_text s (s ++ x) = Some 0.
Proof.
  destruct (s ++ x) eqn:E; simpl; rewrite <- E, starts_with_app; reflexivity.
Qed.

Lemma search_forward_here (s pre x : list gunichar) :
  s <> [] ->
  gtk_source_search_context_forward s (pre ++ s ++ x) (length pre)
  = Some (length pre, length pre + length s).
Proof.
  intros Hs. unfold gtk_source_search_context_forward.
  destruct s as [|c s]; [congruence|].
  rewrite skipn_app_exact, find_text_here, Nat.add_0_r. reflexivity.
Qed.

Lemma length_more_lines (ls : list (list gunichar)) :
  length ls <= length (more_lines ls).
Proof.
  induction ls as [|l ls IH]; [simpl; lia|].
  rewrite more_lines_cons. simpl length. rewrite length_app. lia.
Qed.

Lemma search_context_replace_here (s r pre x : list gunichar) (m : option nat) :
  s <> [] ->
  gtk_source_search_context_replace s (mkBuffer (pre ++ s ++ x) m)
    (length pre) (length pre + length s) r
  = (mkBuffer (pre ++ r ++ x)
       (option_map (mark_after_insert (length pre) (length r))
          (option_map (mark_after_delete (length pre) (length pre + length s)) m)),
     false).
Proof.
  intros Hs. unfold gtk_source_search_context_replace. simpl text.
  rewrite search_forward_here, !Nat.eqb_refl by assumption. simpl.
  rewrite firstn_app_exact, skipn_app_at, skipn_app_exact.
  rewrite firstn_app_exact, skipn_app_exact. reflexivity.
Qed.

Lemma replace_lines (sub : Sub) (pre l0 : list gunichar) (ls : list (list gunichar)) :
  text (buffer sub) = pre ++ search_text sub ++ l0 ++ more_lines ls ->
  search_text sub <> [] -> noLF l0 -> Forall noLF ls ->
  let pc := get_parenthesis_column sub (length pre + length (search_text sub)) in
  replace sub (length pre) (length pre + length (search_text sub))
  = Some (match (if (pc =? -1)%Z then Ok ls else realign_run sub pc ls) with
          | Ok ls1 =>
              Ok (set_buffer sub
                    (mkBuffer (pre ++ replacement sub ++ l0 ++ more_lines ls1) None),
                  length pre + length (replacement sub))
          | Abort f => Abort f
          end).
Proof.
  intros Htext Hs Hl0 Hls pc. unfold replace.
  change (get_parenthesis_column _ _) with pc.
  unfold gtk_text_buffer_create_mark. rewrite Htext.
  rewrite search_context_replace_here by assumption. simpl option_map.
  cbv iota.
  assert (Hmark : mark_after_insert (length pre) (length (replacement sub))
                    (mark_after_delete (length pre) (length pre + length (search_text sub))
                       (length pre + length (search_text sub)))
                  = length pre + length (replacement sub)).
  { unfold mark_after_insert, mark_after_delete.
    assert (0 < length (search_text sub)).
    { destruct (search_text sub); [congruence | simpl; lia]. }
    destruct (_ <=? length pre) eqn:E1; [apply Nat.leb_le in E1; lia|].
    rewrite Nat.leb_refl. rewrite Nat.ltb_irrefl. reflexivity. }
  rewrite Hmark. unfold gtk_text_buffer_get_iter_at_mark at 1. simpl mark. cbv iota.
  destruct (pc =? -1)%Z eqn:Epc; simpl negb; cbv iota.
  - reflexivity.
  - apply Z.eqb_neq in Epc.
    rewrite <- (length_app pre (replacement sub)).
    rewrite (replace_loop_lines ls _ _ (pre ++ replacement sub) l0 pc).
    + rewrite realign_run_set_buffer.
      destruct (realign_run sub pc ls) as [ls1|f]; [|reflexivity].
      simpl. rewrite <- !app_assoc, length_app. reflexivity.
    + simpl. rewrite <- app_assoc. reflexivity.
    + unfold mark_before. simpl. rewrite length_app. lia.
    + assumption.
    + assumption.
    + simpl text. pose proof (length_more_lines ls).
      rewrite !length_app. lia.
    + assumption.
Qed.

(** ** The column of the parenthesis *)

Lemma find_char_app (f : gunichar -> bool) (l r : list gunichar) :
  find_char f (l ++ r)
  = match find_char f l with
    | Some k => Some k
    | None => option_map (Nat.add (length l)) (find_char f r)
    end.
Proof.
  induction l as [|c l IH]; simpl.
  - destruct (find_char f r); reflexivity.
  - destruct (f c); [reflexivity|]. rewrite IH.
    destruct (find_char f l); [reflexivity|].
    destruct (find_char f r); reflexivity.
Qed.

Lemma find_char_lt (f : gunichar -> bool) (l : list gunichar) (k : nat) :
  find_char f l = Some k -> k < length l.
Proof.
  revert k. induction l as [|c l IH]; simpl; intros k H; [discriminate|].
  destruct (f c); [injection H as <-; lia|].
  destruct (find_char f l) as [j|]; [|discriminate].
  injection H as <-. specialize (IH j eq_refl). lia.
Qed.

Lemma find_char_none (f : gunichar -> bool) (l : list gunichar) :
  find_char f l = None <-> Forall (fun c => f c = false) l.
Proof.
  induction l as [|c l IH]; simpl.
  - split; auto.
  - destruct (f c) eqn:Ec.
    + split; [discriminate|]. intros H. inversion H. congruence.
    + destruct (find_char f l) as [j|].
      * split; [discriminate|]. intros H. inversion H; subst.
        destruct IH as [_ IH]. specialize (IH H3). discriminate.
      * split; auto. intros _. constructor; [assumption|]. apply IH. reflexivity.
Qed.

Lemma find_char_first (f : gunichar -> bool) (a b : list gunichar) (c : gunichar) :
  Forall (fun x => f x = false) a -> f c = true ->
  find_char f (a ++ c :: b) = Some (length a).
Proof.
  intros Ha Hc. induction a as [|x a IH]; simpl.
  - rewrite Hc. reflexivity.
  - inversion Ha; subst. rewrite H1, IH by assumption. reflexivity.
Qed.

Lemma get_parenthesis_column_line (sub : Sub) (p before l0 r : list gunichar) :
  text (buffer sub) = p ++ (before ++ l0) ++ r ->
  gtk_text_iter_starts_line (p ++ (before ++ l0) ++ r) (length p) = true ->
  noLF before -> noLF l0 -> at_line_end r ->
  get_parenthesis_column sub (length p + length before) = anchor_column before l0.
Proof.
  intros Htext Hstart Hb Hl0 Hr. unfold get_parenthesis_column, anchor_column.
  rewrite Htext.
  assert (Hline : noLF (before ++ l0)) by (apply noLF_app; split; assumption).
  destruct l0 as [|c l0].
  - rewrite app_nil_r in *.
    replace (p ++ before ++ r) with ((p ++ before) ++ r)
      by (rewrite <- app_assoc; reflexivity).
    rewrite <- length_app, ends_line_at_line_end by assumption.
    unfold gtk_text_iter_forward_search_paren. rewrite Nat.leb_refl. reflexivity.
  - set (l := c :: l0) in *.
    assert (Hlen : 0 < length l) by (simpl; lia).
    rewrite ends_line_inside by (assumption || rewrite length_app; lia).
    unfold gtk_text_iter_forward_to_line_end.
    rewrite is_end_inside by (rewrite length_app; lia).
    unfold gtk_text_iter_get_char.
    rewrite nth_app_at, app_nth1 by (rewrite !length_app; lia).
    rewrite nth_noLF by (assumption || rewrite length_app; lia).
    assert (Hskip : skipn (length p + length before) (p ++ (before ++ l) ++ r)
                    = l ++ r).
    { replace (p ++ (before ++ l) ++ r) with ((p ++ before) ++ l ++ r)
        by (rewrite <- !app_assoc; reflexivity).
      rewrite <- length_app. apply skipn_app_exact. }
    rewrite Hskip, to_line_end_line by assumption.
    unfold gtk_text_iter_forward_search_paren.
    destruct (_ <=? length p + length before) eqn:E; [apply Nat.leb_le in E; lia|].
    rewrite Hskip, find_char_app.
    destruct (find_char is_LPAREN l) as [k|] eqn:Ef.
    + pose proof (find_char_lt _ _ _ Ef) as Hk.
      destruct (S (length p + length before + k)
                <=? length p + length before + length l) eqn:E2;
        [|apply Nat.leb_gt in E2; lia].
      replace (S (length p + length before + k))
        with (length p + (length before + S k)) by lia.
      rewrite visual_column_in_line by (assumption || rewrite length_app; lia).
      rewrite firstn_app, firstn_all2 by lia.
      replace (length before + S k - length before) with (S k) by lia.
      reflexivity.
    + destruct (find_char is_LPAREN r) as [k|]; cbn [option_map]; [|reflexivity].
      destruct (S (length p + length before + (length l + k))
                <=? length p + length before + length l) eqn:E2;
        [apply Nat.leb_le in E2; lia|reflexivity].
Qed.

Lemma line_start_le (t : list gunichar) (i : nat) : line_start t i <= i.
Proof.
  induction i as [|j IH]; simpl; [lia|].
  destruct (is_LF _); lia.
Qed.

Lemma starts_line_line_start (t : list gunichar) (i : nat) :
  gtk_text_iter_starts_line t (line_start t i) = true.
Proof.
  induction i as [|j IH]; simpl; [reflexivity|].
  destruct (is_LF (gtk_text_iter_get_char t j)) eqn:E; [|assumption].
  simpl. assumption.
Qed.

Lemma line_start_segment (t : list gunichar) (i k : nat) :
  line_start t i <= k -> k < i -> is_LF (nth k t 0%N) = false.
Proof.
  induction i as [|j IH]; simpl; intros H1 H2; [lia|].
  unfold gtk_text_iter_get_char in H1.
  destruct (is_LF (nth j t 0%N)) eqn:E; [lia|].
  destruct (Nat.eq_dec k j) as [->|]; [assumption|]. apply IH; lia.
Qed.

Lemma last_line_noLF (t : list gunichar) : noLF (last_line t).
Proof.
  unfold last_line, noLF. apply Forall_forall. intros c Hc.
  apply (In_nth _ _ 0%N) in Hc. destruct Hc as [k [Hk <-]].
  rewrite length_skipn in Hk. rewrite nth_skipn.
  apply (line_start_segment t (length t)); lia.
Qed.

Lemma last_line_split (t : list gunichar) :
  t = firstn (line_start t (length t)) t ++ last_line t.
Proof. unfold last_line. symmetry. apply firstn_skipn. Qed.

Lemma starts_line_extend (t x : list gunichar) (i : nat) :
  i <= length t ->
  gtk_text_iter_starts_line (t ++ x) i = gtk_text_iter_starts_line t i.
Proof.
  intros Hi. destruct i as [|j]; simpl; [reflexivity|].
  unfold gtk_text_iter_get_char. rewrite app_nth1 by lia. reflexivity.
Qed.

(** The column of the parenthesis for a match that ends the text [x]. *)
Lemma get_parenthesis_column_after (sub : Sub) (x l0 r : list gunichar) :
  text (buffer sub) = x ++ l0 ++ r ->
  noLF l0 -> at_line_end r ->
  get_parenthesis_column sub (length x) = anchor_column (last_line x) l0.
Proof.
  intros Htext Hl0 Hr.
  pose proof (last_line_split x) as Hx.
  pose proof (line_start_le x (length x)) as Hle.
  set (p := firstn (line_start x (length x)) x) in *.
  assert (Hp : length p = line_start x (length x)).
  { unfold p. rewrite length_firstn. lia. }
  assert (Hlen : length x = length p + length (last_line x)).
  { rewrite Hx at 1. rewrite length_app. reflexivity. }
  rewrite Hlen. apply (get_parenthesis_column_line sub p (last_line x) l0 r).
  - rewrite Htext. rewrite Hx at 1. rewrite <- !app_assoc. reflexivity.
  - replace (p ++ (last_line x ++ l0) ++ r) with (x ++ l0 ++ r)
      by (rewrite Hx at 1; rewrite <- !app_assoc; reflexivity).
    rewrite starts_line_extend by lia. rewrite Hp. apply starts_line_line_start.
  - apply last_line_noLF.
  - assumption.
  - assumption.
Qed.

(** ** Columns and indentation *)

Lemma to_gint_small (z : Z) :
  (-2147483648 <= z < 2147483648)%Z -> to_gint z = z.
Proof. intros H. unfold to_gint. rewrite Z.mod_small; lia. Qed.


Lemma to_gint_add_l (a b : Z) : to_gint (to_gint a + b) = to_gint (a + b).
Proof.
  unfold to_gint. f_equal.
  replace ((a + 2147483648) mod 4294967296 - 2147483648 + b + 2147483648)%Z
    with ((a + 2147483648) mod 4294967296 + b)%Z by lia.
  rewrite Zplus_mod_idemp_l. f_equal. lia.
Qed.

Lemma new_length_of_to_gint (sub : Sub) (c : Z) :
  new_length_of sub (to_gint c) = new_length_of sub c.
Proof.
  unfold new_length_of.
  replace (to_gint c - g_utf8_strlen (search_text sub)
           + g_utf8_strlen (replacement sub))%Z
    with (to_gint c + (g_utf8_strlen (replacement sub)
                       - g_utf8_strlen (search_text sub)))%Z by lia.
  rewrite to_gint_add_l. f_equal. lia.
Qed.

Lemma fold_advance_no_tab (l : list gunichar) (n : nat) :
  Forall (fun c => is_TAB c = false) l ->
  fold_left advance_column l n = n + length l.
Proof.
  revert n. induction l as [|c l IH]; intros n H; simpl; [lia|].
  inversion H; subst. unfold advance_column at 2. rewrite H2, IH by assumption. lia.
Qed.

Lemma column_of_app_no_tab (a b : list gunichar) :
  Forall (fun c => is_TAB c = false) b ->
  column_of (a ++ b) = column_of a + length b.
Proof.
  intros H. unfold column_of. rewrite fold_left_app. apply fold_advance_no_tab. exact H.
Qed.

Lemma fold_advance_tabs (q n : nat) :
  fold_left advance_column (repeat TAB q) (tab_width * n) = tab_width * (n + q).
Proof.
  revert n. induction q as [|q IH]; intros n; cbn [repeat fold_left].
  - f_equal. lia.
  - unfold advance_column at 2. change (is_TAB TAB) with true. cbv iota.
    replace (tab_width * n + (tab_width - (tab_width * n) mod tab_width))
      with (tab_width * (S n)).
    + rewrite IH. f_equal. lia.
    + rewrite (Nat.mul_comm tab_width n), Nat.Div0.mod_mul. unfold tab_width. lia.
Qed.

Lemma column_of_indentation (tabs : bool) (n : Z) :
  (0 <= n)%Z -> column_of (indentation tabs n) = Z.to_nat n.
Proof.
  intros Hn. unfold indentation, g_strnfill. destruct tabs.
  - unfold column_of. rewrite fold_left_app.
    change 0 with (tab_width * 0) at 1. rewrite fold_advance_tabs.
    rewrite fold_advance_no_tab by (apply Forall_forall; intros c Hc;
                                    apply repeat_spec in Hc; subst; reflexivity).
    rewrite repeat_length. unfold tab_width. simpl Nat.add.
    rewrite Z.quot_div_nonneg, Z.rem_mod_nonneg by lia.
    pose proof (Z.div_mod n 8 ltac:(lia)).
    pose proof (Z.mod_pos_bound n 8 ltac:(lia)).
    pose proof (Z.div_pos n 8 Hn ltac:(lia)). lia.
  - rewrite <- (app_nil_l (repeat SPACE _)).
    rewrite column_of_app_no_tab
      by (apply Forall_forall; intros c Hc; apply repeat_spec in Hc; subst; reflexivity).
    rewrite repeat_length. reflexivity.
Qed.

Lemma indentation_blank (tabs : bool) (n : Z) :
  Forall (fun c => blank c = true) (indentation tabs n).
Proof.
  unfold indentation, g_strnfill. destruct tabs.
  - apply Forall_app. split; apply Forall_forall; intros c Hc;
      apply repeat_spec in Hc; subst; reflexivity.
  - apply Forall_forall; intros c Hc; apply repeat_spec in Hc; subst; reflexivity.
Qed.

Lemma blank_cases (c : gunichar) :
  blank c = true -> is_LF c = false /\ g_unichar_isspace c = true.
Proof.
  unfold blank. intros H. apply andb_true_iff in H. destruct H as [H1 H2].
  apply negb_true_iff in H1. auto.
Qed.

Lemma skip_blank_ws (ws x : list gunichar) :
  Forall (fun c => blank c = true) ws -> skip_blank x = 0 ->
  skip_blank (ws ++ x) = length ws.
Proof.
  intros Hws Hx. induction ws as [|c ws IH]; simpl; [assumption|].
  inversion Hws; subst. destruct (blank_cases c H1) as [-> ->].
  rewrite IH by assumption. reflexivity.
Qed.

Lemma scan_tab_ws (ws x : list gunichar) :
  Forall (fun c => blank c = true) ws -> scan_tab x = false ->
  scan_tab (ws ++ x) = existsb is_TAB ws.
Proof.
  intros Hws Hx. induction ws as [|c ws IH]; simpl; [assumption|].
  inversion Hws; subst. destruct (blank_cases c H1) as [-> ->].
  rewrite IH by assumption. destruct (is_TAB c); reflexivity.
Qed.

Lemma not_space_stops (c : gunichar) (x : list gunichar) :
  g_unichar_isspace c = false ->
  skip_blank (c :: x) = 0 /\ scan_tab (c :: x) = false.
Proof.
  intros Hc. simpl. rewrite Hc.
  assert (is_TAB c = false).
  { destruct (is_TAB c) eqn:E; [|reflexivity].
    apply N.eqb_eq in E. subst. discriminate. }
  rewrite H. destruct (is_LF c); auto.
Qed.

Lemma skip_blank_skipn (l : list gunichar) : skip_blank (skipn (skip_blank l) l) = 0.
Proof.
  induction l as [|c l IH]; simpl; [reflexivity|].
  destruct (is_LF c) eqn:E1; simpl; [rewrite E1; reflexivity|].
  destruct (g_unichar_isspace c) eqn:E2; simpl; [assumption|].
  rewrite E1, E2. reflexivity.
Qed.

Lemma line_column_ws (ws x : list gunichar) :
  Forall (fun c => blank c = true) ws -> skip_blank x = 0 -> x <> [] ->
  line_column (ws ++ x) = to_gint (Z.of_nat (column_of ws)).
Proof.
  intros Hws Hx Hne. unfold line_column. rewrite skip_blank_ws by assumption.
  destruct (length (ws ++ x) <=? length ws) eqn:E.
  - apply Nat.leb_le in E. rewrite length_app in E.
    destruct x; [congruence | simpl in E; lia].
  - rewrite firstn_app_exact. reflexivity.
Qed.


Lemma split_lines_spec (t : list gunichar) :
  t = fst (split_lines t) ++ more_lines (snd (split_lines t))
  /\ noLF (fst (split_lines t)) /\ Forall noLF (snd (split_lines t)).
Proof.
  induction t as [|c t IH]; simpl.
  - repeat split; constructor.
  - destruct (split_lines t) as [l ls]. simpl in IH. destruct IH as [E [Hl Hls]].
    destruct (is_LF c) eqn:Ec; simpl.
    + apply is_LF_true in Ec. subst c. rewrite more_lines_cons, <- E.
      repeat split; [apply noLF_nil | constructor; assumption].
    + rewrite <- E. repeat split; [apply noLF_cons; auto | assumption].
Qed.

Lemma blank_noLF (ws : list gunichar) : Forall (fun c => blank c = true) ws -> noLF ws.
Proof.
  intros H. unfold noLF. eapply Forall_impl; [|exact H].
  intros c Hc. apply blank_cases in Hc. tauto.
Qed.

Lemma not_space_not_LF (c : gunichar) : g_unichar_isspace c = false -> is_LF c = false.
Proof.
  intros H. destruct (is_LF c) eqn:E; [|reflexivity].
  apply is_LF_true in E. subst. discriminate.
Qed.

(** C3: realigning a line deletes its whole leading white space and inserts
    an indentation of [new_start_col = old_start_col + (length of the
    replacement - length of the search text)] columns: [new_start_col / 8]
    tabs then [new_start_col mod 8] spaces when the old indentation of that
    line held a tab, [new_start_col] spaces otherwise. *)
Theorem adjust_alignment_rewrites_indentation
  (sub : Sub) (before ws : list gunichar) (c : gunichar) (rest : list gunichar) :
  text (buffer sub) = before ++ ws ++ c :: rest ->
  gtk_text_iter_starts_line (text (buffer sub)) (length before) = true ->
  Forall (fun x => blank x = true) ws ->
  g_unichar_isspace c = false ->
  let old_start_col := Z.of_nat (column_of ws) in
  let new_start_col :=
    (old_start_col + (g_utf8_strlen (replacement sub)
                      - g_utf8_strlen (search_text sub)))%Z in
  (0 <= new_start_col < 2147483648)%Z ->
  let inserted :=
    if existsb is_TAB ws
    then repeat TAB (Z.to_nat (new_start_col / 8))
         ++ repeat SPACE (Z.to_nat (new_start_col mod 8))
    else repeat SPACE (Z.to_nat new_start_col) in
  get_text_start_column sub (length before) = Ok (to_gint old_start_col)
  /\ (exists m1,
         adjust_alignment sub (length before)
         = Ok (set_buffer sub (mkBuffer (before ++ inserted ++ c :: rest) m1),
               length before))
  /\ column_of inserted = Z.to_nat new_start_col.
Proof.
  intros Htext Hstart Hws Hc old_start_col new_start_col Hrange inserted.
  destruct (split_lines_spec rest) as [Erest [Hl' Hls]].
  set (l' := fst (split_lines rest)) in *. set (ls := snd (split_lines rest)) in *.
  set (l := ws ++ c :: l').
  assert (Htext' : text (buffer sub) = before ++ l ++ more_lines ls).
  { rewrite Htext. unfold l. rewrite Erest at 1. rewrite <- !app_assoc. reflexivity. }
  assert (Hl : noLF l).
  { unfold l. apply noLF_app. split; [apply blank_noLF; assumption|].
    apply noLF_cons. split; [apply not_space_not_LF|]; assumption. }
  destruct (not_space_stops c l' Hc) as [Hskip0 Hscan0].
  assert (Hskip : skip_blank l = length ws) by (apply skip_blank_ws; assumption).
  assert (Hcol : line_column l = to_gint old_start_col).
  { unfold l. apply line_column_ws; [assumption | assumption | discriminate]. }
  assert (Hnew : new_length_of sub (line_column l) = new_start_col).
  { rewrite Hcol, new_length_of_to_gint. unfold new_length_of.
    rewrite to_gint_small; unfold new_start_col in *; lia. }
  assert (Hind : indentation (scan_tab l) new_start_col = inserted).
  { unfold l. rewrite scan_tab_ws by assumption. unfold indentation, inserted, g_strnfill.
    rewrite Z.quot_div_nonneg, Z.rem_mod_nonneg by lia. reflexivity. }
  rewrite Htext' in Hstart.
  split; [|split].
  - rewrite <- Hcol.
    apply (get_text_start_column_line sub before l (more_lines ls));
      assumption || apply more_lines_at_line_end.
  - destruct (adjust_alignment_on_line sub before l (more_lines ls) Htext' Hstart Hl
                (more_lines_at_line_end ls)) as [m1 [Hadj _]].
    { rewrite Hskip. unfold l. rewrite length_app. simpl. lia. }
    exists m1. rewrite Hadj.
    unfold realign_line. rewrite Hnew.
    destruct (0 <=? new_start_col)%Z eqn:E; [|apply Z.leb_gt in E; lia].
    rewrite Hind, Hskip. unfold l. rewrite skipn_app_exact.
    do 3 f_equal. rewrite <- !app_assoc. simpl. rewrite <- Erest. reflexivity.
  - rewrite <- Hind. apply column_of_indentation. lia.
Qed.

(** A line of the C3 statement on which it can be tried: a tab and four
    spaces before [b], with the search text [foo] and the replacement
    [foobar]. *)
Lemma adjust_alignment_rewrites_indentation_witness :
  exists m1,
    adjust_alignment
      (mkSub (chars "foo") (chars "foobar") []
         (mkBuffer (chars "x(" ++ [LF; TAB] ++ chars "    b,") None)) 3
    = Ok (mkSub (chars "foo") (chars "foobar") []
            (mkBuffer (chars "x(" ++ [LF; TAB] ++ chars "       b,") m1), 3).
Proof.
  pose proof (adjust_alignment_rewrites_indentation
                (mkSub (chars "foo") (chars "foobar") []
                   (mkBuffer (chars "x(" ++ [LF; TAB] ++ chars "    b,") None))
                (chars "x(" ++ [LF]) (TAB :: chars "    ") 98%N (chars ",")
                eq_refl eq_refl) as H.
  assert (Hws : Forall (fun x => blank x = true) (TAB :: chars "    ")).
  { repeat constructor. }
  specialize (H Hws eq_refl ltac:(computed)).
  destruct H as [_ [[m1 H] _]]. exists m1. exact H.
Defined.

(** ** The block of realigned lines *)

Lemma realign_run_block (sub : Sub) (pc : Z) (block rest : list (list gunichar)) :
  Forall (fun l => line_column l = pc) block ->
  match rest with [] => True | l :: _ => line_column l <> pc end ->
  block = [] \/ (0 <= new_length_of sub pc)%Z ->
  realign_run sub pc (block ++ rest) = Ok (map (realigned sub pc) block ++ rest).
Proof.
  intros Hb Hr Hn. induction block as [|l block IH]; simpl.
  - destruct rest as [|l rest]; [reflexivity|]. simpl.
    apply Z.eqb_neq in Hr. rewrite Hr. reflexivity.
  - inversion Hb as [|? ? Hl Hb']; subst.
    destruct Hn as [Hn|Hn]; [discriminate|].
    rewrite Z.eqb_refl. unfold realign_line.
    apply Z.leb_le in Hn. rewrite Hn. simpl.
    rewrite IH by (assumption || (right; apply Z.leb_le; assumption)).
    reflexivity.
Qed.

Lemma realign_run_shape (sub : Sub) (pc : Z) (ls ls1 : list (list gunichar)) :
  realign_run sub pc ls = Ok ls1 ->
  length ls1 = length ls /\ (Forall noLF ls -> Forall noLF ls1).
Proof.
  revert ls1. induction ls as [|l ls IH]; simpl; intros ls1 H.
  - injection H as <-. auto.
  - destruct (line_column l =? pc)%Z; [|injection H as <-; auto].
    destruct (realign_line sub l) as [l1|f] eqn:El; simpl in H; [|discriminate].
    destruct (realign_run sub pc ls) as [ls2|f]; simpl in H; [|discriminate].
    injection H as <-. destruct (IH ls2 eq_refl) as [H1 H2]. split.
    + simpl. congruence.
    + intros Hall. inversion Hall; subst. constructor.
      * eapply realign_line_noLF; eassumption.
      * auto.
Qed.

Lemma anchor_column_none (before l0 : list gunichar) :
  Forall (fun c => is_LPAREN c = false) l0 -> anchor_column before l0 = (-1)%Z.
Proof.
  intros H. unfold anchor_column. apply find_char_none in H. rewrite H. reflexivity.
Qed.

Lemma text_after_match (sub : Sub) (pre l0 : list gunichar) (ls : list (list gunichar)) :
  text (buffer sub) = pre ++ search_text sub ++ l0 ++ more_lines ls ->
  text (buffer sub) = (pre ++ search_text sub) ++ l0 ++ more_lines ls
  /\ length (pre ++ search_text sub) = length pre + length (search_text sub).
Proof.
  intros H. rewrite H, <- app_assoc, length_app. auto.
Qed.

(** C4: for a match that has an anchor, the lines realigned are the lines of
    the longest run, right after the line of the match, of lines whose text
    starts at the anchor column; the line that ends the run (blank, or with
    its text at another column) and all the lines after it are unchanged, as
    is the text before the match. *)
Theorem replace_realigns_maximal_block
  (sub : Sub) (pre l0 : list gunichar) (block rest : list (list gunichar)) :
  text (buffer sub) = pre ++ search_text sub ++ l0 ++ more_lines (block ++ rest) ->
  search_text sub <> [] ->
  noLF l0 -> Forall noLF block -> Forall noLF rest ->
  let anchor := get_parenthesis_column sub (length pre + length (search_text sub)) in
  anchor <> (-1)%Z ->
  Forall (fun l => line_column l = anchor) block ->
  match rest with [] => True | l :: _ => line_column l <> anchor end ->
  block = [] \/ (0 <= new_length_of sub anchor)%Z ->
  replace sub (length pre) (length pre + length (search_text sub))
  = Some (Ok (set_buffer sub
                (mkBuffer (pre ++ replacement sub ++ l0
                           ++ more_lines (map (realigned sub anchor) block ++ rest))
                          None),
              length pre + length (replacement sub))).
Proof.
  intros Htext Hs Hl0 Hblock Hrest anchor Hanchor Halign Hstop Hn.
  rewrite (replace_lines sub pre l0 (block ++ rest))
    by (assumption || apply Forall_app; split; assumption).
  fold anchor. apply Z.eqb_neq in Hanchor. rewrite Hanchor.
  rewrite realign_run_block by assumption. reflexivity.
Qed.

(** The example of the program's own documentation, as an instance of C4. *)
Lemma replace_realigns_maximal_block_witness :
  replace
    (mkSub (chars "function_call") (chars "another_beautiful_name") []
       (mkBuffer (text_of_lines [chars "function_call (param1,";
                                 chars "               param2,";
                                 chars "               param3);";
                                 chars "";
                                 chars "               unrelated"]) None))
    0 13
  = Some (Ok (mkSub (chars "function_call") (chars "another_beautiful_name") []
                (mkBuffer (text_of_lines [chars "another_beautiful_name (param1,";
                                 chars "                        param2,";
                                 chars "                        param3);";
                                 chars "";
                                 chars "               unrelated"]) None),
              22)).
Proof.
  pose proof (replace_realigns_maximal_block
                (mkSub (chars "function_call") (chars "another_beautiful_name") []
                   (mkBuffer (text_of_lines [chars "function_call (param1,";
                                 chars "               param2,";
                                 chars "               param3);";
                                 chars "";
                                 chars "               unrelated"]) None))
                [] (chars " (param1,")
                [chars "               param2,"; chars "               param3);"]
                [chars ""; chars "               unrelated"]
                eq_refl ltac:(computed)) as H.
  assert (H1 : noLF (chars " (param1,")) by (repeat constructor).
  assert (H2 : Forall noLF [chars "               param2,";
                            chars "               param3);"])
    by (repeat constructor).
  assert (H3 : Forall noLF [chars ""; chars "               unrelated"])
    by (repeat constructor).
  specialize (H H1 H2 H3 ltac:(computed)
                ltac:(each) ltac:(computed)
                ltac:(right; computed)).
  exact H.
Defined.

(** C6: when the rest of the match's line holds no parenthesis, the match is
    replaced and nothing else in the buffer changes; on the lines [foo],
    [bar] (with or without a final line feed), [foo] replaced by [longfoo]
    leaves [bar] as it was. *)
Theorem no_parenthesis_plain_substitution :
  (forall (sub : Sub) (pre l0 : list gunichar) (ls : list (list gunichar)),
      text (buffer sub) = pre ++ search_text sub ++ l0 ++ more_lines ls ->
      search_text sub <> [] ->
      noLF l0 -> Forall noLF ls ->
      Forall (fun c => is_LPAREN c = false) l0 ->
      get_parenthesis_column sub (length pre + length (search_text sub)) = (-1)%Z
      /\ replace sub (length pre) (length pre + length (search_text sub))
         = Some (Ok (set_buffer sub
                       (mkBuffer (pre ++ replacement sub ++ l0 ++ more_lines ls) None),
                     length pre + length (replacement sub))))
  /\ run 2 (chars "foo") (chars "longfoo") (text_of_lines [chars "foo"; chars "bar"; []])
     = Some (Ok (text_of_lines [chars "longfoo"; chars "bar"; []]))
  /\ run 2 (chars "foo") (chars "longfoo") (text_of_lines [chars "foo"; chars "bar"])
     = Some (Ok (text_of_lines [chars "longfoo"; chars "bar"])).
Proof.
  split; [|split; vm_compute; reflexivity].
  intros sub pre l0 ls Htext Hs Hl0 Hls Hno.
  destruct (text_after_match sub pre l0 ls Htext) as [Htext' Hlen].
  assert (Hpc : get_parenthesis_column sub (length pre + length (search_text sub))
                = (-1)%Z).
  { rewrite <- Hlen.
    rewrite (get_parenthesis_column_after sub _ l0 (more_lines ls))
      by (assumption || apply more_lines_at_line_end).
    apply anchor_column_none. assumption. }
  split; [assumption|].
  rewrite (replace_lines sub pre l0 ls) by assumption.
  rewrite Hpc. reflexivity.
Qed.

(** An instance of C6 with a parenthesis on the next line only. *)
Lemma no_parenthesis_plain_substitution_witness :
  replace (mkSub (chars "foo") (chars "longfoo") []
             (mkBuffer (text_of_lines [chars "x foo, y"; chars "  (bar)"]) None)) 2 5
  = Some (Ok (mkSub (chars "foo") (chars "longfoo") []
                (mkBuffer (text_of_lines [chars "x longfoo, y"; chars "  (bar)"]) None),
              9)).
Proof.
  destruct no_parenthesis_plain_substitution as [H _].
  specialize (H (mkSub (chars "foo") (chars "longfoo") []
                   (mkBuffer (text_of_lines [chars "x foo, y"; chars "  (bar)"]) None))
                (chars "x ") (chars ", y") [chars "  (bar)"]
                eq_refl ltac:(computed) ltac:(each)
                ltac:(each) ltac:(each)).
  destruct H as [_ H]. exact H.
Defined.

(** ** The first line after the match *)

Lemma realign_run_ok (sub : Sub) (pc : Z) (ls : list (list gunichar)) :
  (0 <= new_length_of sub pc)%Z -> exists ls1, realign_run sub pc ls = Ok ls1.
Proof.
  intros Hn. induction ls as [|l ls [ls1 IH]]; simpl.
  - eexists. reflexivity.
  - destruct (line_column l =? pc)%Z eqn:E; [|eexists; reflexivity].
    apply Z.eqb_eq in E. unfold realign_line. rewrite E.
    apply Z.leb_le in Hn. rewrite Hn. simpl. rewrite IH. simpl.
    eexists. reflexivity.
Qed.

Lemma replace_first_line
  (sub : Sub) (pre l0 l1 : list gunichar) (ls : list (list gunichar)) :
  text (buffer sub) = pre ++ search_text sub ++ l0 ++ more_lines (l1 :: ls) ->
  search_text sub <> [] ->
  noLF l0 -> noLF l1 -> Forall noLF ls ->
  let anchor := get_parenthesis_column sub (length pre + length (search_text sub)) in
  anchor <> (-1)%Z ->
  (line_column l1 <> anchor ->
   replace sub (length pre) (length pre + length (search_text sub))
   = Some (Ok (set_buffer sub
                 (mkBuffer (pre ++ replacement sub ++ l0 ++ more_lines (l1 :: ls)) None),
               length pre + length (replacement sub))))
  /\ (line_column l1 = anchor -> (0 <= new_length_of sub anchor)%Z ->
      exists ls1,
        realign_run sub anchor ls = Ok ls1
        /\ replace sub (length pre) (length pre + length (search_text sub))
           = Some (Ok (set_buffer sub
                         (mkBuffer (pre ++ replacement sub ++ l0
                                    ++ more_lines (realigned sub anchor l1 :: ls1))
                                   None),
                       length pre + length (replacement sub)))).
Proof.
  intros Htext Hs Hl0 Hl1 Hls anchor Hanchor.
  pose proof (replace_lines sub pre l0 (l1 :: ls) Htext Hs Hl0
                (Forall_cons _ Hl1 Hls)) as H.
  cbv zeta in H. fold anchor in H.
  apply Z.eqb_neq in Hanchor. rewrite Hanchor in H. cbn [realign_run] in H.
  split.
  - intros Hne. apply Z.eqb_neq in Hne. rewrite Hne in H. exact H.
  - intros He Hn. destruct (realign_run_ok sub anchor ls Hn) as [ls1 Hrun].
    exists ls1. split; [assumption|].
    rewrite H. apply Z.eqb_eq in He. rewrite He.
    unfold realign_line. apply Z.eqb_eq in He. rewrite He.
    apply Z.leb_le in Hn. rewrite Hn. simpl. rewrite Hrun. reflexivity.
Qed.

Lemma visual_column_after (x l0 r : list gunichar) (k : nat) :
  noLF l0 -> k <= length l0 ->
  gtk_source_view_get_visual_column (x ++ l0 ++ r) (length x + k)
  = column_of (last_line x ++ firstn k l0).
Proof.
  intros Hl0 Hk.
  pose proof (last_line_split x) as Hx.
  pose proof (line_start_le x (length x)) as Hle.
  set (p := firstn (line_start x (length x)) x) in *.
  assert (Hp : length p = line_start x (length x)).
  { unfold p. rewrite length_firstn. lia. }
  assert (Hlen : length x = length p + length (last_line x)).
  { rewrite Hx at 1. rewrite length_app. reflexivity. }
  assert (Htext : x ++ l0 ++ r = p ++ (last_line x ++ l0) ++ r).
  { rewrite Hx at 1. rewrite <- !app_assoc. reflexivity. }
  rewrite Htext, Hlen, <- Nat.add_assoc.
  rewrite visual_column_in_line.
  - rewrite firstn_app, firstn_all2 by lia.
    replace (length (last_line x) + k - length (last_line x)) with k by lia.
    reflexivity.
  - rewrite <- Htext, starts_line_extend by lia. rewrite Hp.
    apply starts_line_line_start.
  - apply noLF_app. split; [apply last_line_noLF | assumption].
  - rewrite length_app. lia.
Qed.

Lemma column_of_snoc (l : list gunichar) (c : gunichar) :
  is_TAB c = false -> column_of (l ++ [c]) = S (column_of l).
Proof.
  intros Hc. rewrite column_of_app_no_tab by (repeat constructor; assumption).
  simpl. lia.
Qed.

(** C5 as amended: the column the lines after the match are compared with is
    the column [get_parenthesis_column] returns on the buffer as it is before
    the replacement: the next line is realigned when its text starts at that
    column, and left alone when it starts anywhere else. *)
Theorem anchor_column_precedes_replacement
  (sub : Sub) (pre l0 l1 : list gunichar) (ls : list (list gunichar)) :
  text (buffer sub) = pre ++ search_text sub ++ l0 ++ more_lines (l1 :: ls) ->
  search_text sub <> [] ->
  noLF l0 -> noLF l1 -> Forall noLF ls ->
  let column_before_replacement :=
    get_parenthesis_column sub (length pre + length (search_text sub)) in
  column_before_replacement <> (-1)%Z ->
  (0 <= new_length_of sub column_before_replacement)%Z ->
  exists sub1 ls1,
    replace sub (length pre) (length pre + length (search_text sub))
    = Some (Ok (sub1, length pre + length (replacement sub)))
    /\ text (buffer sub1) = pre ++ replacement sub ++ l0 ++ more_lines (ls1)
    /\ (line_column l1 = column_before_replacement ->
        hd [] ls1 = realigned sub column_before_replacement l1)
    /\ (line_column l1 <> column_before_replacement -> ls1 = l1 :: ls).
Proof.
  intros Htext Hs Hl0 Hl1 Hls anchor Hanchor Hn.
  destruct (replace_first_line sub pre l0 l1 ls Htext Hs Hl0 Hl1 Hls Hanchor)
    as [Hne Heq].
  destruct (Z.eq_dec (line_column l1) anchor) as [E|E].
  - destruct (Heq E Hn) as [ls1 [_ Hr]].
    eexists. exists (realigned sub anchor l1 :: ls1).
    split; [exact Hr|]. split; [reflexivity|]. split; [reflexivity|].
    intros. contradiction.
  - eexists. exists (l1 :: ls). split; [exact (Hne E)|].
    split; [reflexivity|]. split; [intros; contradiction | reflexivity].
Qed.

Lemma anchor_column_precedes_replacement_witness :
  exists sub1 ls1,
    replace
      (mkSub (chars "function_call") (chars "another_beautiful_name") []
         (mkBuffer (text_of_lines [chars "function_call (param1,";
                                   chars "               param2,";
                                   chars "                        param3);"]) None))
      0 13
    = Some (Ok (sub1, 22))
    /\ text (buffer sub1)
       = chars "another_beautiful_name (param1," ++ more_lines ls1
    /\ hd [] ls1 = chars "                        param2,".
Proof.
  pose proof (anchor_column_precedes_replacement
                (mkSub (chars "function_call") (chars "another_beautiful_name") []
                   (mkBuffer (text_of_lines [chars "function_call (param1,";
                                   chars "               param2,";
                                   chars "                        param3);"]) None))
                [] (chars " (param1,") (chars "               param2,")
                [chars "                        param3);"]
                eq_refl ltac:(computed) ltac:(each)
                ltac:(each) ltac:(each)
                ltac:(computed) ltac:(computed))
    as [sub1 [ls1 [H1 [H2 [H3 _]]]]].
  exists sub1, ls1. split; [exact H1|]. split; [exact H2|].
  rewrite H3 by (vm_compute; reflexivity). vm_compute. reflexivity.
Defined.

(** C5 as stated fails: on the example of the documentation the column of the
    parenthesis is 15 before the replacement and 24 after it; the lines
    [param2,] and [param3);] start at column 15, and [replace] realigns them,
    which a comparison with the column of the replaced text would not. *)
Lemma anchor_rederived_counterexample :
  let sub := mkSub (chars "function_call") (chars "another_beautiful_name") []
               (mkBuffer (text_of_lines [chars "function_call (param1,";
                                         chars "               param2,";
                                         chars "               param3);"]) None) in
  let replaced := text_of_lines [chars "another_beautiful_name (param1,";
                                 chars "               param2,";
                                 chars "               param3);"] in
  get_parenthesis_column sub 13 = 15%Z
  /\ get_parenthesis_column (set_buffer sub (mkBuffer replaced None)) 22 = 24%Z
  /\ get_text_start_column (set_buffer sub (mkBuffer replaced None)) 32 = Ok 15%Z
  /\ replace sub 0 13
     = Some (Ok (set_buffer sub
                   (mkBuffer (text_of_lines [chars "another_beautiful_name (param1,";
                                             chars "                        param2,";
                                             chars "                        param3);"])
                             None), 22))
  /\ replace_rederiving_anchor sub 0 13
     = Some (Ok (set_buffer sub (mkBuffer replaced None), 22))
  /\ replace sub 0 13 <> replace_rederiving_anchor sub 0 13.
Proof.
  cbv zeta. repeat split; try (vm_compute; reflexivity).
  vm_compute. discriminate.
Qed.

(** ** The anchor is the column after the parenthesis *)

Lemma is_LPAREN_LPAREN : is_LPAREN LPAREN = true.
Proof. reflexivity. Qed.

Lemma anchor_column_found (before mid tail : list gunichar) :
  Forall (fun c => is_LPAREN c = false) mid ->
  anchor_column before (mid ++ LPAREN :: tail)
  = to_gint (Z.of_nat (column_of (before ++ mid ++ [LPAREN]))).
Proof.
  intros Hmid. unfold anchor_column.
  rewrite (find_char_first is_LPAREN mid tail LPAREN Hmid is_LPAREN_LPAREN).
  replace (S (length mid)) with (length (mid ++ [LPAREN]))
    by (rewrite length_app; simpl; lia).
  replace (mid ++ LPAREN :: tail) with ((mid ++ [LPAREN]) ++ tail)
    by (rewrite <- app_assoc; reflexivity).
  rewrite firstn_app_exact. reflexivity.
Qed.

Section AfterTheParenthesis.

(** [x] is the text up to the end of the match, [mid] what stands between
    the match and the first parenthesis after it. *)
Variables (sub : Sub) (x mid tail r : list gunichar).
Hypothesis Htext : text (buffer sub) = x ++ mid ++ LPAREN :: tail ++ r.
Hypothesis Hmid_paren : Forall (fun c => is_LPAREN c = false) mid.
Hypothesis Hmid : noLF mid.
Hypothesis Htail : noLF tail.
Hypothesis Hr : at_line_end r.

Lemma text_around_parenthesis :
  text (buffer sub) = x ++ (mid ++ LPAREN :: tail) ++ r
  /\ noLF (mid ++ LPAREN :: tail).
Proof.
  rewrite Htext, <- !app_assoc. split; [reflexivity|].
  apply noLF_app. split; [assumption|]. apply noLF_cons. split; [reflexivity|assumption].
Qed.

Lemma column_at_parenthesis :
  gtk_source_view_get_visual_column (text (buffer sub)) (length x + length mid)
  = column_of (last_line x ++ mid).
Proof.
  destruct text_around_parenthesis as [E Hline].
  rewrite E.
  rewrite visual_column_after by (assumption || rewrite length_app; lia).
  rewrite firstn_app_exact. reflexivity.
Qed.

Lemma column_after_parenthesis :
  gtk_source_view_get_visual_column (text (buffer sub)) (S (length x + length mid))
  = column_of (last_line x ++ mid ++ [LPAREN]).
Proof.
  destruct text_around_parenthesis as [E Hline].
  rewrite E. rewrite <- Nat.add_succ_r.
  rewrite visual_column_after
    by (assumption || rewrite length_app; simpl; lia).
  replace (S (length mid)) with (length (mid ++ [LPAREN]))
    by (rewrite length_app; simpl; lia).
  replace (mid ++ LPAREN :: tail) with ((mid ++ [LPAREN]) ++ tail)
    by (rewrite <- app_assoc; reflexivity).
  rewrite firstn_app_exact. reflexivity.
Qed.

Lemma parenthesis_column_is_after :
  get_parenthesis_column sub (length x)
  = to_gint (Z.of_nat (gtk_source_view_get_visual_column
                         (text (buffer sub)) (S (length x + length mid)))).
Proof.
  destruct text_around_parenthesis as [E Hline].
  rewrite column_after_parenthesis.
  rewrite (get_parenthesis_column_after sub x (mid ++ LPAREN :: tail) r)
    by assumption.
  apply anchor_column_found. assumption.
Qed.

End AfterTheParenthesis.

(** C10: the anchor column is the visual column of the position right after
    the first parenthesis that follows the match on its line, one more than
    the column of the parenthesis itself; the next line is realigned exactly
    when its text starts at that column. *)
Theorem anchor_is_column_after_parenthesis
  (sub : Sub) (pre mid tail l1 : list gunichar) (ls : list (list gunichar)) :
  text (buffer sub)
  = pre ++ search_text sub ++ mid ++ LPAREN :: tail ++ more_lines (l1 :: ls) ->
  search_text sub <> [] ->
  Forall (fun c => is_LPAREN c = false) mid ->
  noLF mid -> noLF tail -> noLF l1 -> Forall noLF ls ->
  let t := text (buffer sub) in
  let paren := length pre + length (search_text sub) + length mid in
  let column_after := gtk_source_view_get_visual_column t (S paren) in
  (Z.of_nat column_after < 2147483648)%Z ->
  (0 <= new_length_of sub (Z.of_nat column_after))%Z ->
  gtk_text_iter_get_char t paren = LPAREN
  /\ column_after = S (gtk_source_view_get_visual_column t paren)
  /\ get_parenthesis_column sub (length pre + length (search_text sub))
     = Z.of_nat column_after
  /\ exists sub1 ls1,
      replace sub (length pre) (length pre + length (search_text sub))
      = Some (Ok (sub1, length pre + length (replacement sub)))
      /\ text (buffer sub1)
         = pre ++ replacement sub ++ mid ++ LPAREN :: tail ++ more_lines ls1
      /\ (line_column l1 = Z.of_nat column_after ->
          hd [] ls1 = realigned sub (Z.of_nat column_after) l1)
      /\ (line_column l1 <> Z.of_nat column_after -> ls1 = l1 :: ls).
Proof.
  intros Htext Hs Hmidp Hmid Htail Hl1 Hls t paren column_after Hfit Hn.
  assert (Hchar : gtk_text_iter_get_char t paren = LPAREN).
  { unfold t, paren, gtk_text_iter_get_char. rewrite Htext.
    replace (pre ++ search_text sub ++ mid ++ LPAREN :: tail ++ more_lines (l1 :: ls))
      with ((pre ++ search_text sub ++ mid) ++ LPAREN :: tail ++ more_lines (l1 :: ls))
      by (rewrite <- !app_assoc; reflexivity).
    rewrite app_nth2 by (rewrite !length_app; lia).
    rewrite !length_app.
    replace (length pre + length (search_text sub) + length mid
             - (length pre + (length (search_text sub) + length mid))) with 0 by lia.
    reflexivity. }
  assert (Hx : text (buffer sub)
               = (pre ++ search_text sub) ++ mid ++ LPAREN :: tail
                 ++ more_lines (l1 :: ls)).
  { rewrite Htext, <- !app_assoc. reflexivity. }
  assert (Hparen : paren = length (pre ++ search_text sub) + length mid).
  { unfold paren. rewrite length_app. reflexivity. }
  assert (Hcol : column_after = S (gtk_source_view_get_visual_column t paren)).
  { unfold column_after, t. rewrite Hparen.
    rewrite (column_after_parenthesis sub _ mid tail _ Hx),
            (column_at_parenthesis sub _ mid tail _ Hx) by assumption.
    rewrite app_assoc. apply column_of_snoc. reflexivity. }
  assert (Hpc : get_parenthesis_column sub (length pre + length (search_text sub))
                = Z.of_nat column_after).
  { rewrite <- length_app.
    rewrite (parenthesis_column_is_after sub _ mid tail _ Hx)
      by (assumption || apply more_lines_at_line_end).
    rewrite <- Hparen. apply to_gint_small. fold t column_after. lia. }
  split; [exact Hchar|]. split; [exact Hcol|]. split; [exact Hpc|].
  assert (Htext' : text (buffer sub)
                   = pre ++ search_text sub ++ (mid ++ LPAREN :: tail)
                     ++ more_lines (l1 :: ls)).
  { rewrite Htext, <- !app_assoc. reflexivity. }
  assert (Hline : noLF (mid ++ LPAREN :: tail)).
  { apply noLF_app. split; [assumption|].
    apply noLF_cons. split; [reflexivity|assumption]. }
  destruct (replace_first_line sub pre (mid ++ LPAREN :: tail) l1 ls
              Htext' Hs Hline Hl1 Hls) as [Hne Heq].
  { rewrite Hpc. lia. }
  rewrite Hpc in Hne, Heq.
  destruct (Z.eq_dec (line_column l1) (Z.of_nat column_after)) as [E|E].
  - destruct (Heq E Hn) as [ls1 [_ Hr]].
    eexists. exists (realigned sub (Z.of_nat column_after) l1 :: ls1).
    split; [exact Hr|]. split; [simpl; rewrite <- !app_assoc; reflexivity|].
    split; [reflexivity|]. intros. contradiction.
  - eexists. exists (l1 :: ls). split; [exact (Hne E)|].
    split; [simpl; rewrite <- !app_assoc; reflexivity|].
    split; [intros; contradiction | reflexivity].
Qed.

Lemma anchor_is_column_after_parenthesis_witness :
  let sub := mkSub (chars "function_call") (chars "another_beautiful_name") []
               (mkBuffer (text_of_lines [chars "function_call (param1,";
                                         chars "               param2,";
                                         chars "               param3);"]) None) in
  gtk_text_iter_get_char (text (buffer sub)) 14 = LPAREN
  /\ gtk_source_view_get_visual_column (text (buffer sub)) 14 = 14
  /\ get_parenthesis_column sub 13 = 15%Z
  /\ line_column (chars "               param2,") = 15%Z.
Proof.
  cbv zeta.
  pose proof (anchor_is_column_after_parenthesis
                (mkSub (chars "function_call") (chars "another_beautiful_name") []
                   (mkBuffer (text_of_lines [chars "function_call (param1,";
                                             chars "               param2,";
                                             chars "               param3);"]) None))
                [] (chars " ") (chars "param1,") (chars "               param2,")
                [chars "               param3);"]
                eq_refl ltac:(computed) ltac:(each)
                ltac:(each) ltac:(each)
                ltac:(each) ltac:(each)
                ltac:(computed) ltac:(computed))
    as [H1 [H2 [H3 _]]].
  split; [exact H1|]. split; [vm_compute; reflexivity|].
  split; [exact H3 | vm_compute; reflexivity].
Defined.

(** ** Realigned lines and the parenthesis after the replacement *)

Lemma last_line_app (pre s : list gunichar) :
  noLF s -> last_line (pre ++ s) = last_line pre ++ s.
Proof.
  intros Hs. 
  pose proof (last_line_split pre) as Hx.
  pose proof (line_start_le pre (length pre)) as Hle.
  set (p := firstn (line_start pre (length pre)) pre) in *.
  assert (Hp : length p = line_start pre (length pre)).
  { unfold p. rewrite length_firstn. lia. }
  assert (E : pre ++ s = p ++ (last_line pre ++ s) ++ []).
  { rewrite Hx at 1. rewrite app_nil_r, <- app_assoc. reflexivity. }
  unfold last_line at 1.
  assert (Hls : line_start (pre ++ s) (length (pre ++ s)) = length p).
  { rewrite E at 1.
    replace (length (pre ++ s)) with (length p + length (last_line pre ++ s)).
    - apply line_start_in_line.
      + rewrite <- E, starts_line_extend by lia. rewrite Hp.
        apply starts_line_line_start.
      + apply noLF_app. split; [apply last_line_noLF | assumption].
      + lia.
    - rewrite E, !length_app. simpl. lia. }
  rewrite Hls. rewrite E at 1. rewrite skipn_app_exact, app_nil_r. reflexivity.
Qed.





(** ** A negative width *)

Lemma realign_run_negative (sub : Sub) (pc : Z) (l1 : list gunichar)
  (ls : list (list gunichar)) :
  line_column l1 = pc -> (new_length_of sub pc < 0)%Z ->
  realign_run sub pc (l1 :: ls) = Abort AssertNewLength.
Proof.
  intros E Hn. cbn [realign_run]. rewrite (proj2 (Z.eqb_eq _ _) E).
  unfold realign_line. rewrite E.
  destruct (0 <=? new_length_of sub pc)%Z eqn:E1; [apply Z.leb_le in E1; lia|].
  reflexivity.
Qed.

(** C7: a negative [new_length] ends the run.  In [adjust_alignment] a
    negative value always aborts, with the assertion on [new_length] when
    the line has text; a value that is not negative never fails that
    assertion, and the call succeeds when the line has text.  In a run, the
    first match whose next line is aligned on the parenthesis and gets a
    negative [new_length] makes [do_substitution] abort there. *)
Theorem negative_width_aborts :
  (forall (sub : Sub) (iter : GtkTextIter) (column : Z),
      get_text_start_column sub iter = Ok column ->
      let new_length := new_length_of sub column in
      ((new_length < 0)%Z -> exists f, adjust_alignment sub iter = Abort f)
      /\ ((new_length < 0)%Z -> column <> (-1)%Z ->
          adjust_alignment sub iter = Abort AssertNewLength)
      /\ ((0 <= new_length)%Z -> adjust_alignment sub iter <> Abort AssertNewLength)
      /\ ((0 <= new_length)%Z -> column <> (-1)%Z ->
          exists r, adjust_alignment sub iter = Ok r))
  /\ (forall (fuel : nat) (sub : Sub) (iter : GtkTextIter)
        (pre l0 l1 : list gunichar) (ls : list (list gunichar)),
        text (buffer sub) = pre ++ search_text sub ++ l0 ++ more_lines (l1 :: ls) ->
        noLF l0 -> noLF l1 -> Forall noLF ls ->
        gtk_source_search_context_forward (search_text sub) (text (buffer sub)) iter
        = Some (length pre, length pre + length (search_text sub)) ->
        let anchor :=
          get_parenthesis_column sub (length pre + length (search_text sub)) in
        anchor <> (-1)%Z ->
        line_column l1 = anchor ->
        (new_length_of sub anchor < 0)%Z ->
        do_substitution_loop (S fuel) sub iter = Some (Abort AssertNewLength)).
Proof.
  split.
  - intros sub iter column Hcol new_length.
    unfold get_text_start_column in Hcol. unfold adjust_alignment.
    destruct (gtk_text_iter_starts_line (text (buffer sub)) iter) eqn:Es;
      simpl in Hcol; [|discriminate].
    simpl.
    assert (Hf : forward_iter_to_text_start (text (buffer sub)) iter
                 = Ok (iter + skip_blank (skipn iter (text (buffer sub))))).
    { unfold forward_iter_to_text_start. rewrite Es. reflexivity. }
    rewrite Hf in *. simpl in Hcol. simpl.
    set (start := iter + skip_blank (skipn iter (text (buffer sub)))) in *.
    assert (Hg : get_text_start_column sub iter = Ok column).
    { unfold get_text_start_column. rewrite Es. simpl. rewrite Hf. simpl.
      exact Hcol. }
    unfold gtk_text_iter_ends_line in *.
    destruct (gtk_text_iter_is_end (text (buffer sub)) start) eqn:Eend; simpl in *.
    + injection Hcol as <-.
      repeat split; intros; try lia; try congruence; try (eexists; reflexivity).
    + destruct (is_LF (gtk_text_iter_get_char (text (buffer sub)) start)) eqn:El;
        simpl in *.
      * injection Hcol as <-.
        repeat split; intros; try lia; try congruence; try (eexists; reflexivity).
      * rewrite Hg. simpl. fold new_length.
        destruct (0 <=? new_length)%Z eqn:En; simpl.
        -- apply Z.leb_le in En.
           repeat split; intros; try lia; try discriminate;
             try (eexists; reflexivity).
        -- apply Z.leb_gt in En.
           repeat split; intros; try lia; try reflexivity;
             try (eexists; reflexivity).
  - intros fuel sub iter pre l0 l1 ls Htext Hl0 Hl1 Hls Hfind anchor Hanchor Hcol Hn.
    assert (Hs : search_text sub <> []).
    { intros E. unfold gtk_source_search_context_forward in Hfind.
      rewrite E in Hfind. discriminate. }
    cbn [do_substitution_loop]. rewrite Hfind.
    rewrite (replace_lines sub pre l0 (l1 :: ls) Htext Hs Hl0 (Forall_cons _ Hl1 Hls)).
    fold anchor. rewrite (proj2 (Z.eqb_neq _ _) Hanchor).
    rewrite realign_run_negative by assumption. reflexivity.
Qed.

(** A search text of two lines and an empty replacement: the line after the
    match is aligned on the parenthesis at column 2, and its new length would
    be 2 - 10. *)
Lemma negative_width_aborts_witness :
  adjust_alignment
    (mkSub (chars "function_call") (chars "f") [] (mkBuffer (chars "  x") None)) 0
  = Abort AssertNewLength
  /\ do_substitution_loop 1
       (mkSub (text_of_lines [chars "aaaaaaaa"; chars "b"]) [] []
          (mkBuffer (text_of_lines [chars "aaaaaaaa"; chars "b("; chars "  c"]) None))
       0
     = Some (Abort AssertNewLength).
Proof.
  destruct negative_width_aborts as [H1 H2]. split.
  - destruct (H1 (mkSub (chars "function_call") (chars "f") []
                    (mkBuffer (chars "  x") None)) 0 2%Z eq_refl)
      as [_ [H _]].
    apply H; [vm_compute; reflexivity | discriminate].
  - apply (H2 0 (mkSub (text_of_lines [chars "aaaaaaaa"; chars "b"]) [] []
                   (mkBuffer (text_of_lines [chars "aaaaaaaa"; chars "b(";
                                             chars "  c"]) None))
              0 [] (chars "(") (chars "  c") []).
    + reflexivity.
    + repeat constructor.
    + repeat constructor.
    + constructor.
    + reflexivity.
    + vm_compute. discriminate.
    + vm_compute. reflexivity.
    + vm_compute. reflexivity.
Defined.

(** ** Matches found by the search *)

Lemma starts_with_true (s x : list gunichar) :
  starts_with s x = true -> x = s ++ skipn (length s) x.
Proof.
  revert x. induction s as [|a s IH]; intros x H; simpl in *; [reflexivity|].
  destruct x as [|c x]; [discriminate|].
  apply andb_true_iff in H. destruct H as [Hac Hs].
  apply N.eqb_eq in Hac. subst. simpl. f_equal. apply IH. assumption.
Qed.

Lemma find_text_unfold (s x : list gunichar) :
  find_text s x
  = if starts_with s x then Some 0
    else match x with
         | [] => None
         | _ :: r => option_map S (find_text s r)
         end.
Proof.
  destruct x as [|c r]; simpl; [reflexivity|].
  destruct (starts_with s (c :: r)); [reflexivity|].
  destruct (find_text s r); reflexivity.
Qed.

Lemma find_text_some (s x : list gunichar) (k : nat) :
  find_text s x = Some k ->
  x = firstn k x ++ s ++ skipn (k + length s) x /\ length (firstn k x) = k.
Proof.
  revert k. induction x as [|c x IH]; intros k H; rewrite find_text_unfold in H.
  - destruct (starts_with s []) eqn:E; [|discriminate].
    injection H as <-. simpl. split; [|reflexivity].
    apply starts_with_true in E. exact E.
  - destruct (starts_with s (c :: x)) eqn:E.
    + injection H as <-. split; [|reflexivity].
      apply starts_with_true in E. exact E.
    + destruct (find_text s x) as [j|]; [|discriminate].
      injection H as <-. destruct (IH j eq_refl) as [H1 H2].
      simpl. split; [f_equal; exact H1 | f_equal; exact H2].
Qed.

Lemma firstn_add (i k : nat) (t : list gunichar) :
  firstn (i + k) t = firstn i t ++ firstn k (skipn i t).
Proof.
  revert t. induction i as [|i IH]; intros t; simpl; [reflexivity|].
  destruct t as [|c t]; simpl.
  - rewrite firstn_nil. reflexivity.
  - rewrite IH. reflexivity.
Qed.

(** A match found from [iter]: the text splits around it, and what follows
    it splits into the rest of its line and the lines after. *)
Lemma search_forward_some (s t : list gunichar) (iter ms me : nat) :
  gtk_source_search_context_forward s t iter = Some (ms, me) ->
  s <> [] /\ iter <= ms /\ me = ms + length s
  /\ exists pre l0 ls,
      t = pre ++ s ++ l0 ++ more_lines ls
      /\ length pre = ms /\ pre = firstn ms t
      /\ noLF l0 /\ Forall noLF ls.
Proof.
  unfold gtk_source_search_context_forward. intros H.
  destruct s as [|a s'] eqn:Es; [discriminate|]. rewrite <- Es in *.
  destruct (find_text s (skipn iter t)) as [k|] eqn:Ef; [|discriminate].
  injection H as <- <-.
  destruct (find_text_some _ _ _ Ef) as [H1 H2].
  split; [rewrite Es; discriminate|]. split; [lia|]. split; [reflexivity|].
  assert (Hi : iter <= length t).
  { destruct (Nat.le_gt_cases iter (length t)) as [|Hgt]; [assumption|].
    rewrite skipn_all2 in Ef by lia. rewrite find_text_unfold in Ef.
    rewrite Es in Ef. simpl in Ef. discriminate. }
  set (post := skipn (k + length s) (skipn iter t)) in *.
  destruct (split_lines_spec post) as [Ep [Hl Hls]].
  exists (firstn (iter + k) t), (fst (split_lines post)), (snd (split_lines post)).
  assert (Ht : t = firstn (iter + k) t ++ s ++ post).
  { rewrite firstn_add, <- app_assoc. rewrite <- H1. symmetry. apply firstn_skipn. }
  split; [rewrite <- Ep; exact Ht|].
  split; [|split; [reflexivity | split; assumption]].
  rewrite firstn_add, length_app, H2, length_firstn. lia.
Qed.

Lemma replace_at_match (sub : Sub) (iter ms me : nat) :
  gtk_source_search_context_forward (search_text sub) (text (buffer sub)) iter
  = Some (ms, me) ->
  iter <= ms /\ me = ms + length (search_text sub)
  /\ exists pre l0 ls,
      text (buffer sub) = pre ++ search_text sub ++ l0 ++ more_lines ls
      /\ length pre = ms /\ pre = firstn ms (text (buffer sub))
      /\ noLF l0 /\ Forall noLF ls
      /\ let pc := get_parenthesis_column sub me in
         replace sub ms me
         = Some (match (if (pc =? -1)%Z then Ok ls else realign_run sub pc ls) with
                 | Ok ls1 =>
                     Ok (set_buffer sub
                           (mkBuffer (pre ++ replacement sub ++ l0 ++ more_lines ls1)
                                     None),
                         ms + length (replacement sub))
                 | Abort f => Abort f
                 end).
Proof.
  intros H. destruct (search_forward_some _ _ _ _ _ H)
    as [Hs [Hle [Hme [pre [l0 [ls [Ht [Hlen [Hpre [Hl0 Hls]]]]]]]]]].
  split; [assumption|]. split; [assumption|].
  exists pre, l0, ls. repeat (split; [assumption|]).
  subst me. rewrite <- Hlen. apply replace_lines; assumption.
Qed.

(** [replace] on a match never runs out of the fuel it gives its loop. *)
Lemma replace_total (sub : Sub) (iter ms me : nat) :
  gtk_source_search_context_forward (search_text sub) (text (buffer sub)) iter
  = Some (ms, me) ->
  exists out, replace sub ms me = Some out.
Proof.
  intros H. destruct (replace_at_match sub iter ms me H)
    as [_ [_ [pre [l0 [ls [_ [_ [_ [_ [_ Hr]]]]]]]]]].
  eexists. exact Hr.
Qed.

(** ** The search goes on after the replacement *)

Lemma firstn_app_le (a b : list gunichar) (n : nat) :
  n <= length a -> firstn n (a ++ b) = firstn n a.
Proof.
  intros H. rewrite firstn_app. replace (n - length a) with 0 by lia.
  simpl. apply app_nil_r.
Qed.

(** One step of the loop of [do_substitution], for a match that [replace]
    handles without aborting. *)
Lemma replace_step (sub : Sub) (iter ms me : nat) (sub1 : Sub) (me1 : nat) :
  gtk_source_search_context_forward (search_text sub) (text (buffer sub)) iter
  = Some (ms, me) ->
  replace sub ms me = Some (Ok (sub1, me1)) ->
  iter <= ms /\ me = ms + length (search_text sub)
  /\ me1 = ms + length (replacement sub)
  /\ search_text sub1 = search_text sub /\ replacement sub1 = replacement sub
  /\ file sub1 = file sub
  /\ firstn me1 (text (buffer sub1)) = firstn ms (text (buffer sub)) ++ replacement sub
  /\ me1 <= length (text (buffer sub1)).
Proof.
  intros Hfind Hrep.
  destruct (replace_at_match sub iter ms me Hfind)
    as [Hle [Hme [pre [l0 [ls [Ht [Hlen [Hpre [Hl0 [Hls Hr]]]]]]]]]].
  cbv zeta in Hr. rewrite Hr in Hrep.
  destruct (if (get_parenthesis_column sub me =? -1)%Z then Ok ls
            else realign_run sub (get_parenthesis_column sub me) ls) as [ls1|f];
    [|discriminate].
  injection Hrep as <- <-. simpl.
  repeat (split; [assumption || reflexivity|]).
  rewrite <- Hpre. rewrite app_assoc.
  replace (ms + length (replacement sub)) with (length (pre ++ replacement sub))
    by (rewrite length_app; lia).
  split; [apply firstn_app_exact|]. rewrite !length_app. lia.
Qed.

(** Fuel that is enough stays enough. *)
Lemma do_substitution_loop_more_fuel (fuel : nat) :
  forall (sub : Sub) (iter : nat) (out : result Sub) (fuel' : nat),
    do_substitution_loop fuel sub iter = Some out -> fuel <= fuel' ->
    do_substitution_loop fuel' sub iter = Some out.
Proof.
  induction fuel as [|fuel IH]; intros sub iter out fuel' H Hle; [discriminate|].
  destruct fuel' as [|fuel']; [lia|]. simpl in *.
  destruct (gtk_source_search_context_forward _ _ iter) as [[ms me]|]; [|assumption].
  destruct (replace sub ms me) as [[[sub1 me1]|f]|]; try assumption.
  apply IH; [assumption | lia].
Qed.

Lemma firstn_le_eq (n m : nat) (a b : list gunichar) :
  n <= m -> firstn m a = firstn m b -> firstn n a = firstn n b.
Proof.
  intros Hle H.
  rewrite <- (Nat.min_l n m Hle), <- !firstn_firstn, H. reflexivity.
Qed.

(** The text before the position the search goes on from is never changed
    again. *)
Lemma do_substitution_loop_keeps_prefix (fuel : nat) :
  forall (sub : Sub) (iter : nat) (sub' : Sub),
    do_substitution_loop fuel sub iter = Some (Ok sub') ->
    iter <= length (text (buffer sub)) ->
    firstn iter (text (buffer sub')) = firstn iter (text (buffer sub))
    /\ search_text sub' = search_text sub /\ replacement sub' = replacement sub
    /\ file sub' = file sub.
Proof.
  induction fuel as [|fuel IH]; intros sub iter sub' H Hi; [discriminate|].
  simpl in H.
  destruct (gtk_source_search_context_forward _ _ iter) as [[ms me]|] eqn:Ef.
  - destruct (replace sub ms me) as [[[sub1 me1]|f]|] eqn:Er; try discriminate.
    destruct (replace_step sub iter ms me sub1 me1 Ef Er)
      as [Hle [_ [Hme1 [Hs [Hr [Hfile [Hpre Hlen]]]]]]].
    destruct (IH sub1 me1 sub' H Hlen) as [Hkeep [Hs' [Hr' Hfile']]].
    split; [|repeat split; congruence].
    rewrite (firstn_le_eq iter me1 _ _ ltac:(lia) Hkeep).
    rewrite <- (Nat.min_l iter me1) by lia.
    rewrite <- firstn_firstn, Hpre.
    rewrite firstn_app_le by (rewrite length_firstn; lia).
    rewrite firstn_firstn. f_equal. lia.
  - injection H as <-. auto.
Qed.

(** C8: the search goes on from the end of the replacement.  For a match
    found from [iter], [replace] hands back the position right after the
    inserted replacement; the next turn of the loop searches from there, so
    any later match starts at or after it, and the text before it, which
    holds the replacement, is the same at the end of the run. *)
Theorem search_resumes_after_replacement
  (sub : Sub) (iter match_start match_end : GtkTextIter) :
  gtk_source_search_context_forward (search_text sub) (text (buffer sub)) iter
  = Some (match_start, match_end) ->
  let after_replacement := match_start + length (replacement sub) in
  iter <= match_start
  /\ match_end = match_start + length (search_text sub)
  /\ ((exists f,
          replace sub match_start match_end = Some (Abort f)
          /\ forall fuel, do_substitution_loop (S fuel) sub iter = Some (Abort f))
      \/ (exists sub1,
             replace sub match_start match_end = Some (Ok (sub1, after_replacement))
             /\ firstn after_replacement (text (buffer sub1))
                = firstn match_start (text (buffer sub)) ++ replacement sub
             /\ (forall fuel,
                    do_substitution_loop (S fuel) sub iter
                    = do_substitution_loop fuel sub1 after_replacement)
             /\ (forall next_start next_end,
                    gtk_source_search_context_forward
                      (search_text sub1) (text (buffer sub1)) after_replacement
                    = Some (next_start, next_end) ->
                    after_replacement <= next_start)
             /\ (forall fuel sub',
                    do_substitution_loop fuel sub1 after_replacement = Some (Ok sub') ->
                    firstn after_replacement (text (buffer sub'))
                    = firstn match_start (text (buffer sub)) ++ replacement sub))).
Proof.
  intros Hfind after_replacement.
  destruct (replace_total sub iter match_start match_end Hfind) as [out Hout].
  destruct (replace_at_match sub iter match_start match_end Hfind) as [Hle [Hme _]].
  split; [assumption|]. split; [assumption|].
  destruct out as [[sub1 me1]|f].
  - right.
    destruct (replace_step sub iter match_start match_end sub1 me1 Hfind Hout)
      as [_ [_ [Hme1 [Hs [Hr [Hfile [Hpre Hlen]]]]]]].
    subst me1. fold after_replacement in Hout, Hpre, Hlen.
    exists sub1. split; [assumption|]. split; [assumption|]. split; [|split].
    + intros fuel. cbn [do_substitution_loop]. rewrite Hfind, Hout. reflexivity.
    + intros next_start next_end Hnext.
      destruct (search_forward_some _ _ _ _ _ Hnext) as [_ [H _]]. exact H.
    + intros fuel sub' Hrun.
      destruct (do_substitution_loop_keeps_prefix fuel sub1 _ sub' Hrun Hlen) as [H _].
      rewrite H. exact Hpre.
  - left. exists f. split; [assumption|].
    intros fuel. cbn [do_substitution_loop]. rewrite Hfind, Hout. reflexivity.
Qed.

(** [foo] replaced by [foofoo]: the second [foo] of the replacement is not
    matched again, and the search goes on with the [foo] that follows. *)
Lemma search_resumes_after_replacement_witness :
  let sub := mkSub (chars "foo") (chars "foofoo") []
               (mkBuffer (chars "a foo foo") None) in
  replace sub 2 5
  = Some (Ok (set_buffer sub (mkBuffer (chars "a foofoo foo") None), 8))
  /\ gtk_source_search_context_forward (chars "foo") (chars "a foofoo foo") 8
     = Some (9, 12)
  /\ do_substitution 3 sub
     = Some (Ok (set_buffer sub (mkBuffer (chars "a foofoo foofoo") None))).
Proof.
  cbv zeta.
  pose proof (search_resumes_after_replacement
                (mkSub (chars "foo") (chars "foofoo") []
                   (mkBuffer (chars "a foo foo") None)) 0 2 5 eq_refl)
    as [_ [_ [[f [H _]]|[sub1 [H1 [H2 [H3 [H4 H5]]]]]]]].
  - vm_compute in H. discriminate.
  - split; [vm_compute; reflexivity|]. split; [vm_compute; reflexivity|].
    unfold do_substitution, gtk_text_buffer_get_start_iter.
    rewrite H3.
    assert (E : sub1 = mkSub (chars "foo") (chars "foofoo") []
                         (mkBuffer (chars "a foofoo foo") None)).
    { vm_compute in H1. injection H1 as <-. reflexivity. }
    rewrite E. vm_compute. reflexivity.
Defined.

(** ** The run ends *)

Lemma count_LF_app (a b : list gunichar) : count_LF (a ++ b) = count_LF a + count_LF b.
Proof. unfold count_LF. rewrite filter_app, length_app. reflexivity. Qed.

Lemma count_LF_noLF (l : list gunichar) : noLF l -> count_LF l = 0.
Proof.
  unfold count_LF. induction l as [|c l IH]; intros H; [reflexivity|].
  apply noLF_cons in H. destruct H as [Hc Hl]. simpl. rewrite Hc. auto.
Qed.

Lemma count_LF_zero (l : list gunichar) : count_LF l = 0 -> noLF l.
Proof.
  unfold count_LF. induction l as [|c l IH]; intros H; [apply noLF_nil|].
  simpl in H. destruct (is_LF c) eqn:Ec; [discriminate|].
  apply noLF_cons. auto.
Qed.

Lemma count_LF_more_lines (ls : list (list gunichar)) :
  Forall noLF ls -> count_LF (more_lines ls) = length ls.
Proof.
  induction ls as [|l ls IH]; intros H; [reflexivity|].
  inversion H; subst. rewrite more_lines_cons.
  change (LF :: l ++ more_lines ls) with ([LF] ++ l ++ more_lines ls).
  rewrite !count_LF_app, (count_LF_noLF l), IH by assumption. reflexivity.
Qed.

Lemma skipn_app_le (a b : list gunichar) (n : nat) :
  n <= length a -> skipn n (a ++ b) = skipn n a ++ b.
Proof.
  intros H. rewrite skipn_app. replace (n - length a) with 0 by lia. reflexivity.
Qed.

(** The loop of [do_substitution] ends: after a replacement, either fewer
    line feeds remain after the position of the search, or as many and a
    shorter rest of the current line. *)
Lemma do_substitution_loop_terminates :
  forall (n m : nat) (sub : Sub) (iter : nat),
    count_LF (skipn iter (text (buffer sub))) <= n ->
    to_line_end (skipn iter (text (buffer sub))) <= m ->
    exists fuel out, do_substitution_loop fuel sub iter = Some out.
Proof.
  induction n as [n IHn] using (well_founded_induction lt_wf).
  induction m as [m IHm] using (well_founded_induction lt_wf).
  intros sub iter Hn Hm.
  destruct (gtk_source_search_context_forward
              (search_text sub) (text (buffer sub)) iter) as [[ms me]|] eqn:Ef.
  - destruct (replace_at_match sub iter ms me Ef)
      as [Hle [Hme [pre [l0 [ls [Ht [Hlen [Hpre [Hl0 [Hls Hr]]]]]]]]]].
    destruct (search_forward_some _ _ _ _ _ Ef) as [Hs _].
    cbv zeta in Hr.
    destruct (if (get_parenthesis_column sub me =? -1)%Z then Ok ls
              else realign_run sub (get_parenthesis_column sub me) ls)
      as [ls1|f] eqn:Erun.
    + assert (Hshape : length ls1 = length ls /\ Forall noLF ls1).
      { destruct (get_parenthesis_column sub me =? -1)%Z.
        - injection Erun as <-. auto.
        - destruct (realign_run_shape _ _ _ _ Erun) as [H1 H2]. auto. }
      destruct Hshape as [Hlen1 Hls1].
      set (sub1 := set_buffer sub
                     (mkBuffer (pre ++ replacement sub ++ l0 ++ more_lines ls1) None))
        in *.
      set (me1 := ms + length (replacement sub)) in *.
      assert (Hskip1 : skipn me1 (text (buffer sub1)) = l0 ++ more_lines ls1).
      { unfold sub1, me1. simpl. rewrite app_assoc, <- Hlen, <- length_app.
        apply skipn_app_exact. }
      assert (Hskip : skipn iter (text (buffer sub))
                      = (skipn iter pre ++ search_text sub) ++ l0 ++ more_lines ls).
      { rewrite Ht, skipn_app_le by lia. rewrite <- app_assoc. reflexivity. }
      set (a := skipn iter pre ++ search_text sub) in *.
      assert (Ha : 0 < length a).
      { unfold a. rewrite length_app. destruct (search_text sub); [congruence|].
        simpl. lia. }
      rewrite Hskip in Hn, Hm. rewrite !count_LF_app in Hn.
      rewrite (count_LF_noLF l0), count_LF_more_lines in Hn by assumption.
      assert (Hn1 : count_LF (skipn me1 (text (buffer sub1))) = length ls).
      { rewrite Hskip1, count_LF_app, (count_LF_noLF l0), count_LF_more_lines
          by assumption. lia. }
      assert (Hm1 : to_line_end (skipn me1 (text (buffer sub1))) = length l0).
      { rewrite Hskip1. apply to_line_end_line;
          [assumption | apply more_lines_at_line_end]. }
      assert (Hrec : exists fuel out, do_substitution_loop fuel sub1 me1 = Some out).
      { destruct (count_LF a) as [|k] eqn:Ea.
        - apply count_LF_zero in Ea.
          rewrite to_line_end_app in Hm by assumption.
          rewrite to_line_end_line in Hm
            by (assumption || apply more_lines_at_line_end).
          apply (IHm (length l0)); lia.
        - apply (IHn (length ls) ltac:(lia) (length l0)); lia. }
      destruct Hrec as [fuel [out Hrun]].
      exists (S fuel), out. cbn [do_substitution_loop]. rewrite Ef, Hr. exact Hrun.
    + exists 1. eexists. cbn [do_substitution_loop]. rewrite Ef, Hr. reflexivity.
  - exists 1. eexists. cbn [do_substitution_loop]. rewrite Ef. reflexivity.
Qed.

(** [do_substitution] ends, with the buffer substituted or on an abort. *)
Lemma do_substitution_terminates (sub : Sub) :
  exists fuel out, do_substitution fuel sub = Some out.
Proof.
  unfold do_substitution. eapply do_substitution_loop_terminates; apply Nat.le_refl.
Qed.

(** ** The command line *)

Lemma main_with_arguments (fuel : nat) (env : Env)
  (program s r f : list gunichar) :
  s <> [] -> f <> [] ->
  main fuel env [program; s; r; f]
  = match load_file env f with
    | None => Some (Aborted ErrorLoading, [LoadFile f])
    | Some txt =>
        match do_substitution fuel (mkSub s r f (mkBuffer txt None)) with
        | None => None
        | Some (Abort e) => Some (Aborted e, [LoadFile f])
        | Some (Ok sub1) =>
            Some (save_cb (save_file_ok env (file sub1) (text (buffer sub1))),
                  [LoadFile f; SaveFile (file sub1) (text (buffer sub1))])
        end
    end.
Proof.
  intros Hs Hf. unfold main. simpl.
  destruct s as [|a s]; [congruence|]. destruct f as [|b f]; [congruence|].
  simpl. unfold sub_launch, load_cb. simpl.
  destruct (load_file env (b :: f)) as [txt|]; [|reflexivity].
  unfold set_buffer. simpl.
  destruct (do_substitution fuel _) as [[sub1|e]|]; reflexivity.
Qed.

Lemma do_substitution_keeps_file (fuel : nat) (sub sub1 : Sub) :
  do_substitution fuel sub = Some (Ok sub1) -> file sub1 = file sub.
Proof.
  intros H. unfold do_substitution in H.
  apply do_substitution_loop_keeps_prefix in H; [tauto|].
  unfold gtk_text_buffer_get_start_iter. lia.
Qed.

(** C9: with a number of arguments other than three, [main] prints the usage
    on the standard error, returns [EXIT_FAILURE] and neither reads nor
    writes a file.  With three arguments it ends; it returns [EXIT_SUCCESS]
    exactly when the search text and the file name are not empty, the file
    is loaded, the substitution does not abort and the file is saved, and it
    is aborted otherwise; a file without a match is saved as it was
    loaded. *)
Theorem main_exit_status :
  (forall (fuel : nat) (env : Env) (argv : list (list gunichar)),
      length argv <> 4 ->
      main fuel env argv
      = Some (Exit EXIT_FAILURE, usage (nth 0 argv (chars "(null)")))
      /\ EXIT_FAILURE <> 0%Z
      /\ existsb touches_file (usage (nth 0 argv (chars "(null)"))) = false)
  /\ (forall (env : Env) (program s r f : list gunichar),
         (exists fuel out, main fuel env [program; s; r; f] = Some out)
         /\ forall fuel t events,
             main fuel env [program; s; r; f] = Some (t, events) ->
             (t = Exit EXIT_SUCCESS \/ exists e, t = Aborted e)
             /\ (t = Exit EXIT_SUCCESS <->
                 s <> [] /\ f <> []
                 /\ exists txt sub1,
                     load_file env f = Some txt
                     /\ do_substitution fuel (mkSub s r f (mkBuffer txt None))
                        = Some (Ok sub1)
                     /\ save_file_ok env f (text (buffer sub1)) = true))
  /\ (forall (fuel : nat) (env : Env) (program s r f txt : list gunichar),
         s <> [] -> f <> [] ->
         load_file env f = Some txt ->
         gtk_source_search_context_forward s txt 0 = None ->
         save_file_ok env f txt = true ->
         main (S fuel) env [program; s; r; f]
         = Some (Exit EXIT_SUCCESS, [LoadFile f; SaveFile f txt])).
Proof.
  split; [|split].
  - intros fuel env argv Hargc. unfold main.
    destruct (length argv =? 4) eqn:E; [apply Nat.eqb_eq in E; congruence|].
    simpl. repeat split. discriminate.
  - intros env program s r f.
    destruct s as [|a s].
    { split; [exists 0; eexists; reflexivity|].
      intros fuel t events H. unfold main in H. simpl in H.
      injection H as <- <-. split; [right; eexists; reflexivity|].
      split; [discriminate | intros [H _]; congruence]. }
    destruct f as [|b f].
    { split; [exists 0; eexists; reflexivity|].
      intros fuel t events H. unfold main in H. simpl in H.
      injection H as <- <-. split; [right; eexists; reflexivity|].
      split; [discriminate | intros [_ [H _]]; congruence]. }
    set (s' := a :: s) in *. set (f' := b :: f) in *.
    assert (Hs : s' <> []) by discriminate.
    assert (Hf : f' <> []) by discriminate.
    split.
    + destruct (load_file env f') as [txt|] eqn:El.
      * destruct (do_substitution_terminates (mkSub s' r f' (mkBuffer txt None)))
          as [fuel [out Hout]].
        exists fuel. rewrite main_with_arguments, El, Hout by assumption.
        destruct out; eexists; reflexivity.
      * exists 0. rewrite main_with_arguments, El by assumption.
        eexists; reflexivity.
    + intros fuel t events H. rewrite main_with_arguments in H by assumption.
      destruct (load_file env f') as [txt|] eqn:El.
      * destruct (do_substitution fuel (mkSub s' r f' (mkBuffer txt None)))
          as [[sub1|e]|] eqn:Ed; [| |discriminate].
        -- pose proof (do_substitution_keeps_file _ _ _ Ed) as Hfile.
           simpl in Hfile. rewrite Hfile in H.
           destruct (save_file_ok env f' (text (buffer sub1))) eqn:Es;
             simpl in H; injection H as <- <-.
           ++ split; [left; reflexivity|]. split; [|reflexivity].
              intros _. repeat (split; [assumption|]).
              exists txt, sub1. auto.
           ++ split; [right; eexists; reflexivity|].
              split; [discriminate|].
              intros [_ [_ [txt' [sub1' [H1 [H2 H3]]]]]].
              injection H1 as <-. rewrite Ed in H2. injection H2 as <-.
              congruence.
        -- injection H as <- <-. split; [right; eexists; reflexivity|].
           split; [discriminate|].
           intros [_ [_ [txt' [sub1' [H1 [H2 H3]]]]]].
           injection H1 as <-. rewrite Ed in H2. discriminate.
      * injection H as <- <-. split; [right; eexists; reflexivity|].
        split; [discriminate|].
        intros [_ [_ [txt' [sub1' [H1 _]]]]]. discriminate.
  - intros fuel env program s r f txt Hs Hf Hl Hnone Hsave.
    rewrite main_with_arguments, Hl by assumption.
    unfold do_substitution, gtk_text_buffer_get_start_iter.
    cbn [do_substitution_loop search_text buffer text]. rewrite Hnone.
    simpl. rewrite Hsave. reflexivity.
Qed.

(** A run of [main] on a file of one line, and runs with two and with four
    arguments. *)
Lemma main_exit_status_witness :
  let env := mkEnv (fun _ => Some (chars "a foo b")) (fun _ _ => true) in
  main 0 env [chars "lineup-substitution"; chars "foo"; chars "bar"]
  = Some (Exit 1, usage (chars "lineup-substitution"))
  /\ main 0 env [chars "lineup-substitution"; chars "foo"; chars "bar";
                 chars "file.c"; chars "more"]
     = Some (Exit 1, usage (chars "lineup-substitution"))
  /\ main 1 env [chars "lineup-substitution"; chars "baz"; chars "bar"; chars "file.c"]
     = Some (Exit 0, [LoadFile (chars "file.c");
                      SaveFile (chars "file.c") (chars "a foo b")]).
Proof.
  cbv zeta. destruct main_exit_status as [H1 [_ H3]].
  split; [|split].
  - apply H1. simpl. discriminate.
  - apply H1. simpl. discriminate.
  - apply H3; try discriminate; reflexivity.
Defined.

(** ** The example of the documentation *)



(** ** Further properties of the run *)

(** X1: the run always ends: some fuel is enough, any larger fuel gives the
    same result, and the result is the substituted buffer or an abort. *)
Theorem do_substitution_always_ends (sub : Sub) :
  exists fuel out,
    do_substitution fuel sub = Some out
    /\ forall fuel', fuel <= fuel' -> do_substitution fuel' sub = Some out.
Proof.
  destruct (do_substitution_terminates sub) as [fuel [out H]].
  exists fuel, out. split; [assumption|].
  intros fuel' Hle. unfold do_substitution in *.
  eapply do_substitution_loop_more_fuel; eassumption.
Qed.



Lemma fold_advance_ge (l : list gunichar) (n : nat) :
  n + length l <= fold_left advance_column l n.
Proof.
  revert n. induction l as [|c l IH]; intros n; simpl; [lia|].
  specialize (IH (advance_column n c)).
  assert (S n <= advance_column n c).
  { unfold advance_column. destruct (is_TAB c); [|lia].
    pose proof (Nat.mod_upper_bound n tab_width ltac:(discriminate)). lia. }
  lia.
Qed.

Lemma fold_advance_le (l : list gunichar) (n : nat) :
  fold_left advance_column l n <= n + tab_width * length l.
Proof.
  revert n. induction l as [|c l IH]; intros n; simpl; [lia|].
  specialize (IH (advance_column n c)).
  assert (advance_column n c <= n + tab_width).
  { unfold advance_column. destruct (is_TAB c); unfold tab_width; lia. }
  unfold tab_width in *. lia.
Qed.

(** X3: the assertion on [new_length] needs a search text of several lines
    to fail: when the search text holds no line feed and the line of the match
    is of a length whose columns fit a [gint], the column after the
    parenthesis is more than the length of the search text, and [replace]
    does not abort. *)
Theorem single_line_search_never_aborts
  (sub : Sub) (pre l0 : list gunichar) (ls : list (list gunichar)) :
  text (buffer sub) = pre ++ search_text sub ++ l0 ++ more_lines ls ->
  search_text sub <> [] ->
  noLF (search_text sub) -> noLF l0 -> Forall noLF ls ->
  (8 * Z.of_nat (length (last_line pre ++ search_text sub ++ l0))
   + Z.of_nat (length (replacement sub)) < 2147483648)%Z ->
  exists sub1,
    replace sub (length pre) (length pre + length (search_text sub))
    = Some (Ok (sub1, length pre + length (replacement sub))).
Proof.
  intros Htext Hs HsLF Hl0 Hls Hfit.
  rewrite (replace_lines sub pre l0 ls Htext Hs Hl0 Hls).
  set (pc := get_parenthesis_column sub (length pre + length (search_text sub))).
  destruct (pc =? -1)%Z eqn:Epc; [eexists; reflexivity|].
  assert (Hpc : pc = anchor_column (last_line (pre ++ search_text sub)) l0).
  { unfold pc. rewrite <- length_app.
    apply (get_parenthesis_column_after sub (pre ++ search_text sub) l0 (more_lines ls));
      [rewrite Htext, <- app_assoc; reflexivity | assumption
      | apply more_lines_at_line_end]. }
  apply Z.eqb_neq in Epc.
  assert (Hn : (0 <= new_length_of sub pc)%Z).
  { rewrite Hpc in *. unfold anchor_column in *.
    destruct (find_char is_LPAREN l0) as [k|] eqn:Ek; [|congruence].
    - rewrite new_length_of_to_gint, last_line_app by assumption.
      pose proof (find_char_lt _ _ _ Ek) as Hk.
      set (line := (last_line pre ++ search_text sub) ++ firstn (S k) l0).
      assert (Hlow : length (search_text sub) + 1 <= column_of line).
      { unfold line, column_of. rewrite <- app_assoc, fold_left_app.
        pose proof (fold_advance_ge (search_text sub ++ firstn (S k) l0)
                      (fold_left advance_column (last_line pre) 0)) as H.
        rewrite length_app, length_firstn in H. lia. }
      assert (Hhigh : column_of line
                      <= 8 * length (last_line pre ++ search_text sub ++ l0)).
      { unfold line, column_of.
        pose proof (fold_advance_le
                      ((last_line pre ++ search_text sub) ++ firstn (S k) l0) 0) as H.
        unfold tab_width in H. rewrite !length_app, length_firstn in *. lia. }
      unfold new_length_of, g_utf8_strlen. rewrite to_gint_small; lia. }
  destruct (realign_run_ok sub pc ls Hn) as [ls1 Hrun]. rewrite Hrun.
  eexists. reflexivity.
Qed.

Lemma single_line_search_never_aborts_witness :
  exists sub1,
    replace
      (mkSub (chars "function_call") (chars "f") []
         (mkBuffer (text_of_lines [chars "function_call (param1,";
                                   chars "               param2);"]) None))
      0 13
    = Some (Ok (sub1, 1)).
Proof.
  apply (single_line_search_never_aborts
           (mkSub (chars "function_call") (chars "f") []
              (mkBuffer (text_of_lines [chars "function_call (param1,";
                                        chars "               param2);"]) None))
           [] (chars " (param1,") [chars "               param2);"]);
    first [ each | computed ].
Defined.

(** ** The failures of a run *)

Lemma realign_run_abort (sub : Sub) (pc : Z) (ls : list (list gunichar)) (f : failure) :
  realign_run sub pc ls = Abort f -> f = AssertNewLength.
Proof.
  induction ls as [|l ls IH]; simpl; [discriminate|].
  destruct (line_column l =? pc)%Z; [|discriminate].
  unfold realign_line.
  destruct (0 <=? new_length_of sub (line_column l))%Z; simpl.
  - destruct (realign_run sub pc ls) as [ls1|f1]; simpl; [discriminate|].
    intros H. injection H as <-. apply IH. reflexivity.
  - intros H. injection H as <-. reflexivity.
Qed.

Lemma replace_abort (sub : Sub) (iter ms me : nat) (f : failure) :
  gtk_source_search_context_forward (search_text sub) (text (buffer sub)) iter
  = Some (ms, me) ->
  replace sub ms me = Some (Abort f) -> f = AssertNewLength.
Proof.
  intros Ef Hr.
  destruct (replace_at_match sub iter ms me Ef)
    as [_ [_ [pre [l0 [ls [_ [_ [_ [_ [_ H]]]]]]]]]].
  cbv zeta in H. rewrite H in Hr.
  destruct (get_parenthesis_column sub me =? -1)%Z; [discriminate|].
  destruct (realign_run sub (get_parenthesis_column sub me) ls) as [ls1|f1] eqn:E;
    [discriminate|].
  injection Hr as <-. eapply realign_run_abort; eassumption.
Qed.

Lemma do_substitution_loop_abort (fuel : nat) :
  forall (sub : Sub) (iter : nat) (f : failure),
    do_substitution_loop fuel sub iter = Some (Abort f) -> f = AssertNewLength.
Proof.
  induction fuel as [|fuel IH]; intros sub iter f H; [discriminate|].
  cbn [do_substitution_loop] in H.
  destruct (gtk_source_search_context_forward
              (search_text sub) (text (buffer sub)) iter) as [[ms me]|] eqn:Ef;
    [|discriminate].
  destruct (replace sub ms me) as [[[sub1 me1]|f1]|] eqn:Er; [| |discriminate].
  - eapply IH; eassumption.
  - injection H as <-. eapply replace_abort; eassumption.
Qed.

(** X4: the assertions on the iterators hold in every run.  The only abort of
    [do_substitution] is the assertion on [new_length]; [main] is aborted
    by that assertion, by the assertions of [sub_new] on the search text and
    on the file name, or by an error of the loader or of the saver. *)
Theorem failures_of_a_run :
  (forall (fuel : nat) (sub : Sub) (f : failure),
      do_substitution fuel sub = Some (Abort f) -> f = AssertNewLength)
  /\ (forall (fuel : nat) (env : Env) (argv : list (list gunichar))
        (f : failure) (events : list event),
        main fuel env argv = Some (Aborted f, events) ->
        In f [AssertSearchText; AssertFilename; ErrorLoading; AssertNewLength;
              ErrorSaving]).
Proof.
  split.
  - intros fuel sub f. apply do_substitution_loop_abort.
  - intros fuel env argv f events H. unfold main in H.
    destruct (negb (length argv =? 4)); [discriminate|].
    destruct (sub_new (nth 1 argv []) (nth 2 argv []) (nth 3 argv [])) as [sub|e] eqn:En.
    + unfold sub_launch, load_cb in H.
      destruct (load_file env (file sub)) as [t|].
      * destruct (do_substitution fuel (set_buffer sub (mkBuffer t None)))
          as [[sub1|e]|] eqn:Ed; [| |discriminate].
        -- unfold save_file, save_cb in H.
           destruct (save_file_ok env (file sub1) (text (buffer sub1)));
             [discriminate|].
           injection H as <- _. simpl. tauto.
        -- injection H as <- _.
           apply do_substitution_loop_abort in Ed. subst e. simpl. tauto.
      * injection H as <- _. simpl. tauto.
    + injection H as <- _. unfold sub_new, g_assert in En.
      destruct (negb (length (nth 1 argv []) =? 0)); simpl in En;
        [|injection En as <-; simpl; tauto].
      destruct (negb (length (nth 3 argv []) =? 0)); simpl in En;
        [discriminate|injection En as <-; simpl; tauto].
Qed.

Lemma failures_of_a_run_witness :
  let sub := mkSub (text_of_lines [chars "aaaaaaaa"; chars "b"]) [] []
               (mkBuffer (text_of_lines [chars "aaaaaaaa"; chars "b("; chars "  c"])
                         None) in
  do_substitution 1 sub = Some (Abort AssertNewLength)
  /\ AssertNewLength = AssertNewLength
  /\ In AssertSearchText
        [AssertSearchText; AssertFilename; ErrorLoading; AssertNewLength; ErrorSaving].
Proof.
  cbv zeta. destruct failures_of_a_run as [H1 H2].
  split; [vm_compute; reflexivity|]. split.
  - apply (H1 1 (mkSub (text_of_lines [chars "aaaaaaaa"; chars "b"]) [] []
                   (mkBuffer (text_of_lines [chars "aaaaaaaa"; chars "b(";
                                             chars "  c"]) None))).
    vm_compute. reflexivity.
  - apply (H2 0 (mkEnv (fun _ => None) (fun _ _ => true))
              [chars "lineup-substitution"; []; chars "x"; chars "file.c"]
              AssertSearchText []).
    vm_compute. reflexivity.
Defined.

(** ** The number of lines *)

Lemma do_substitution_loop_counts_lines (fuel : nat) :
  forall (sub : Sub) (iter : nat) (sub' : Sub),
    do_substitution_loop fuel sub iter = Some (Ok sub') ->
    exists n,
      count_LF (text (buffer sub')) + n * count_LF (search_text sub)
      = count_LF (text (buffer sub)) + n * count_LF (replacement sub).
Proof.
  induction fuel as [|fuel IH]; intros sub iter sub' H; [discriminate|].
  cbn [do_substitution_loop] in H.
  destruct (gtk_source_search_context_forward
              (search_text sub) (text (buffer sub)) iter) as [[ms me]|] eqn:Ef;
    [|injection H as <-; exists 0; reflexivity].
  destruct (replace_at_match sub iter ms me Ef)
    as [_ [_ [pre [l0 [ls [Ht [_ [_ [Hl0 [Hls Hrep]]]]]]]]]].
  cbv zeta in Hrep. rewrite Hrep in H.
  destruct (if (get_parenthesis_column sub me =? -1)%Z then Ok ls
            else realign_run sub (get_parenthesis_column sub me) ls)
    as [ls1|f] eqn:Erun; [|discriminate].
  assert (Hshape : length ls1 = length ls /\ Forall noLF ls1).
  { destruct (get_parenthesis_column sub me =? -1)%Z.
    - injection Erun as <-. auto.
    - destruct (realign_run_shape _ _ _ _ Erun) as [H1 H2]. auto. }
  destruct Hshape as [Hlen1 Hls1].
  apply IH in H. destruct H as [n H]. exists (S n).
  cbn [text buffer set_buffer search_text replacement] in H.
  rewrite Ht. rewrite !count_LF_app, !count_LF_more_lines in * by assumption.
  lia.
Qed.

(** X5: the run changes the number of line feeds by what the replacements
    bring: with [n] replacements, [n] times the line feeds of the replacement
    for [n] times those of the search text.  When neither holds a line feed
    the buffer keeps its number of lines. *)
Theorem line_feeds_are_accounted_for (fuel : nat) (sub sub' : Sub) :
  do_substitution fuel sub = Some (Ok sub') ->
  (exists n,
      count_LF (text (buffer sub')) + n * count_LF (search_text sub)
      = count_LF (text (buffer sub)) + n * count_LF (replacement sub))
  /\ (noLF (search_text sub) -> noLF (replacement sub) ->
      count_LF (text (buffer sub')) = count_LF (text (buffer sub))).
Proof.
  intros H. apply do_substitution_loop_counts_lines in H. destruct H as [n H].
  split; [exists n; exact H|].
  intros Hs Hr. rewrite (count_LF_noLF _ Hs), (count_LF_noLF _ Hr) in H. lia.
Qed.

Lemma line_feeds_are_accounted_for_witness :
  let sub := mkSub (chars "f") (chars "call") []
               (mkBuffer (text_of_lines [chars "f (a,"; chars "   f (b,";
                                         chars "      c))"]) None) in
  exists sub',
    do_substitution 3 sub = Some (Ok sub')
    /\ count_LF (text (buffer sub')) = count_LF (text (buffer sub)).
Proof.
  cbv zeta. eexists. split; [vm_compute; reflexivity|].
  apply (line_feeds_are_accounted_for 3); [vm_compute; reflexivity | each | each].
Defined.

(** ** What is written to the file *)

(** X6: what [main] does to the file.  It saves once at most, after the
    file is loaded and the substitution has returned, to the name it loaded
    from, and what it saves is the buffer the substitution returns.  When
    the process is aborted for any reason but an error of the saver, nothing
    is saved.  The file is loaded only with three arguments, a search text
    and a file name that are not empty. *)
Theorem file_written_after_substitution
  (fuel : nat) (env : Env) (argv : list (list gunichar))
  (t : termination) (events : list event) :
  main fuel env argv = Some (t, events) ->
  (forall name contents,
      In (SaveFile name contents) events ->
      exists program s r txt sub1,
        argv = [program; s; r; name]
        /\ load_file env name = Some txt
        /\ do_substitution fuel (mkSub s r name (mkBuffer txt None)) = Some (Ok sub1)
        /\ contents = text (buffer sub1)
        /\ events = [LoadFile name; SaveFile name contents])
  /\ (forall f, t = Aborted f -> f <> ErrorSaving ->
      forall name contents, ~ In (SaveFile name contents) events)
  /\ (forall name, In (LoadFile name) events ->
      length argv = 4 /\ nth 1 argv [] <> [] /\ name = nth 3 argv [] /\ name <> []).
Proof.
  intros H. unfold main in H.
  destruct (length argv =? 4) eqn:Eargc; simpl in H.
  - apply Nat.eqb_eq in Eargc.
    destruct argv as [|program [|s [|r [|f [|x argv]]]]]; try discriminate.
    cbn [nth] in *.
    destruct s as [|a s].
    { injection H as <- <-. repeat split; intros; simpl in *; tauto. }
    destruct f as [|b f].
    { injection H as <- <-. repeat split; intros; simpl in *; tauto. }
    cbn in H. unfold sub_launch, load_cb in H. cbn [file] in H.
    destruct (load_file env (b :: f)) as [txt|] eqn:El.
    + unfold set_buffer in H. cbn [search_text replacement file] in H.
      destruct (do_substitution fuel _) as [[sub1|e]|] eqn:Ed; [| |discriminate].
      * pose proof (do_substitution_keeps_file _ _ _ Ed) as Hfile. cbn in Hfile.
        unfold save_file in H. rewrite Hfile in H. injection H as <- <-.
        split; [|split].
        -- intros name contents [Hin|[Hin|[]]]; [discriminate|].
           injection Hin as <- <-.
           exists program, (a :: s), r, txt, sub1. auto.
        -- intros e Ht He name contents [Hin|[Hin|[]]]; [discriminate|].
           unfold save_cb in Ht.
           destruct (save_file_ok env (b :: f) (text (buffer sub1)));
             [discriminate|congruence].
        -- intros name [Hin|[Hin|[]]]; [|discriminate].
           injection Hin as <-. repeat split; discriminate.
      * injection H as <- <-. split; [|split].
        -- intros name contents [Hin|[]]. discriminate.
        -- intros e' _ _ name contents [Hin|[]]. discriminate.
        -- intros name [Hin|[]]. injection Hin as <-. repeat split; discriminate.
    + injection H as <- <-. split; [|split].
      * intros name contents [Hin|[]]. discriminate.
      * intros e' _ _ name contents [Hin|[]]. discriminate.
      * intros name [Hin|[]]. injection Hin as <-. repeat split; discriminate.
  - injection H as <- <-. split; [|split].
    + intros name contents [Hin|[Hin|[]]]; discriminate.
    + intros f Ht. discriminate.
    + intros name [Hin|[Hin|[]]]; discriminate.
Qed.

Lemma file_written_after_substitution_witness :
  let env := mkEnv (fun _ => Some (text_of_lines [chars "f (a,"; chars "   b)"]))
                   (fun _ _ => true) in
  let argv := [chars "lineup-substitution"; chars "f"; chars "call"; chars "file.c"] in
  main 2 env argv
  = Some (Exit 0, [LoadFile (chars "file.c");
                   SaveFile (chars "file.c")
                     (text_of_lines [chars "call (a,"; chars "      b)"])])
  /\ exists program s r txt sub1,
      argv = [program; s; r; chars "file.c"]
      /\ load_file env (chars "file.c") = Some txt
      /\ do_substitution 2 (mkSub s r (chars "file.c") (mkBuffer txt None))
         = Some (Ok sub1)
      /\ text_of_lines [chars "call (a,"; chars "      b)"] = text (buffer sub1)
      /\ [LoadFile (chars "file.c");
          SaveFile (chars "file.c") (text_of_lines [chars "call (a,"; chars "      b)"])]
         = [LoadFile (chars "file.c");
            SaveFile (chars "file.c") (text (buffer sub1))].
Proof.
  cbv zeta. split; [vm_compute; reflexivity|].
  destruct (file_written_after_substitution 2
              (mkEnv (fun _ => Some (text_of_lines [chars "f (a,"; chars "   b)"]))
                     (fun _ _ => true))
              [chars "lineup-substitution"; chars "f"; chars "call"; chars "file.c"]
              (Exit 0)
              [LoadFile (chars "file.c");
               SaveFile (chars "file.c")
                 (text_of_lines [chars "call (a,"; chars "      b)"])])
    as [H _]; [vm_compute; reflexivity|].
  destruct (H (chars "file.c") (text_of_lines [chars "call (a,"; chars "      b)"]))
    as [program [s [r [txt [sub1 [H1 [H2 [H3 [H4 H5]]]]]]]]];
    [right; left; reflexivity|].
  exists program, s, r, txt, sub1.
  rewrite <- H4. auto.
Defined.

(** ** Lines without text *)

Lemma skip_blank_all (ws : list gunichar) :
  Forall (fun c => blank c = true) ws -> skip_blank ws = length ws.
Proof.
  intros H. rewrite <- (app_nil_r ws) at 1. apply skip_blank_ws; [assumption|reflexivity].
Qed.

(** X7: a line without text ends the block.  When the line that follows
    the line of the match is empty or holds white space only, [replace]
    replaces the match and leaves every following line as it is, aligned or
    not: in the buffer it returns, the text start column of that line is -1,
    which is no column of a parenthesis. *)
Theorem blank_line_ends_the_block
  (sub : Sub) (pre l0 ws : list gunichar) (rest : list (list gunichar)) :
  text (buffer sub) = pre ++ search_text sub ++ l0 ++ more_lines (ws :: rest) ->
  search_text sub <> [] ->
  noLF l0 -> Forall (fun c => blank c = true) ws -> Forall noLF rest ->
  let sub1 :=
    set_buffer sub
      (mkBuffer (pre ++ replacement sub ++ l0 ++ more_lines (ws :: rest)) None) in
  replace sub (length pre) (length pre + length (search_text sub))
  = Some (Ok (sub1, length pre + length (replacement sub)))
  /\ get_text_start_column sub1
       (S (length pre + length (replacement sub) + length l0)) = Ok (-1)%Z.
Proof.
  intros Htext Hs Hl0 Hws Hrest sub1.
  pose proof (blank_noLF _ Hws) as Hws'.
  assert (Hcol : line_column ws = (-1)%Z).
  { apply line_column_blank. rewrite skip_blank_all by assumption. lia. }
  split.
  - rewrite (replace_lines sub pre l0 (ws :: rest) Htext Hs Hl0)
      by (constructor; assumption).
    cbv zeta.
    destruct (Z.eqb (get_parenthesis_column sub
                       (length pre + length (search_text sub))) (-1)) eqn:E;
      [reflexivity|].
    cbn [realign_run]. rewrite Hcol, Z.eqb_sym, E. reflexivity.
  - rewrite <- Hcol.
    replace (S (length pre + length (replacement sub) + length l0))
      with (length (pre ++ replacement sub ++ l0 ++ [LF]))
      by (rewrite !length_app; simpl; lia).
    apply (get_text_start_column_line sub1 _ ws (more_lines rest)).
    + unfold sub1. cbn [text buffer set_buffer].
      rewrite more_lines_cons, <- !app_assoc. reflexivity.
    + replace ((pre ++ replacement sub ++ l0 ++ [LF]) ++ ws ++ more_lines rest)
        with ((pre ++ replacement sub ++ l0) ++ LF :: ws ++ more_lines rest)
        by (rewrite <- !app_assoc; reflexivity).
      replace (length (pre ++ replacement sub ++ l0 ++ [LF]))
        with (S (length (pre ++ replacement sub ++ l0)))
        by (rewrite !length_app; simpl; lia).
      apply starts_line_after_LF.
    + assumption.
    + apply more_lines_at_line_end.
Qed.

Lemma blank_line_ends_the_block_witness :
  let sub := mkSub (chars "f") (chars "call") []
               (mkBuffer (text_of_lines [chars "f (a,"; chars "  "; chars "   b)"])
                         None) in
  let sub1 := set_buffer sub
                (mkBuffer (text_of_lines [chars "call (a,"; chars "  ";
                                          chars "   b)"]) None) in
  replace sub 0 1 = Some (Ok (sub1, 4))
  /\ get_text_start_column sub1 9 = Ok (-1)%Z.
Proof.
  cbv zeta.
  apply (blank_line_ends_the_block
           (mkSub (chars "f") (chars "call") []
              (mkBuffer (text_of_lines [chars "f (a,"; chars "  "; chars "   b)"])
                        None))
           [] (chars " (a,") (chars "  ") [chars "   b)"]);
    first [ each | computed ].
Defined.

(** X8: [adjust_alignment] wants the start of a line that has text.
    Elsewhere than at the start of a line it aborts on its first assertion;
    at the start of a line of white space it aborts on the assertion that
    the text start is not the end of the buffer, when the line is the last
    one, and else on the assertion that it is not the end of a line. *)
Theorem adjust_alignment_needs_text (sub : Sub) :
  (forall iter,
      gtk_text_iter_starts_line (text (buffer sub)) iter = false ->
      adjust_alignment sub iter = Abort AssertStartsLine)
  /\ (forall p ws r,
         text (buffer sub) = p ++ ws ++ r ->
         gtk_text_iter_starts_line (text (buffer sub)) (length p) = true ->
         Forall (fun c => blank c = true) ws ->
         at_line_end r ->
         adjust_alignment sub (length p)
         = Abort (match r with [] => AssertNotIsEnd | _ :: _ => AssertNotEndsLine end)).
Proof.
  split.
  - intros iter H. unfold adjust_alignment. rewrite H. reflexivity.
  - intros p ws r Htext Hstart Hws Hr.
    unfold adjust_alignment. rewrite Hstart. simpl.
    rewrite Htext in *.
    rewrite forward_iter_to_text_start_line
      by (assumption || apply blank_noLF; assumption).
    simpl. rewrite skip_blank_all by assumption.
    destruct r as [|c r].
    + unfold gtk_text_iter_is_end. rewrite !length_app. simpl.
      replace (length p + (length ws + 0) <=? length p + length ws) with true
        by (symmetry; apply Nat.leb_le; lia).
      reflexivity.
    + unfold gtk_text_iter_is_end. rewrite !length_app. simpl length.
      replace (length p + (length ws + S (length r)) <=? length p + length ws)
        with false by (symmetry; apply Nat.leb_gt; lia).
      simpl.
      replace (p ++ ws ++ c :: r) with ((p ++ ws) ++ c :: r)
        by (rewrite <- app_assoc; reflexivity).
      rewrite <- length_app, ends_line_at_line_end by assumption.
      reflexivity.
Qed.

Lemma adjust_alignment_needs_text_witness :
  adjust_alignment
    (mkSub (chars "f") (chars "call") [] (mkBuffer (chars "call (a,") None)) 4
  = Abort AssertStartsLine
  /\ adjust_alignment
       (mkSub (chars "f") (chars "call") []
          (mkBuffer (text_of_lines [chars "call (a,"; chars "  "]) None)) 9
     = Abort AssertNotIsEnd
  /\ adjust_alignment
       (mkSub (chars "f") (chars "call") []
          (mkBuffer (text_of_lines [chars "call (a,"; chars "  "; chars "b)"]) None)) 9
     = Abort AssertNotEndsLine.
Proof.
  split; [|split].
  - apply (proj1 (adjust_alignment_needs_text
                    (mkSub (chars "f") (chars "call") []
                       (mkBuffer (chars "call (a,") None)))).
    reflexivity.
  - apply (proj2 (adjust_alignment_needs_text
                    (mkSub (chars "f") (chars "call") []
                       (mkBuffer (text_of_lines [chars "call (a,"; chars "  "]) None)))
             (chars "call (a," ++ [LF]) (chars "  ") []);
      first [ each | computed ].
  - apply (proj2 (adjust_alignment_needs_text
                    (mkSub (chars "f") (chars "call") []
                       (mkBuffer (text_of_lines [chars "call (a,"; chars "  ";
                                                 chars "b)"]) None)))
             (chars "call (a," ++ [LF]) (chars "  ") (LF :: chars "b)"));
      first [ each | computed ].
Defined.

(** ** The start of the text of a line *)

Lemma skip_blank_spec (x : list gunichar) :
  (forall k, k < skip_blank x -> blank (nth k x 0%N) = true)
  /\ (length x <= skip_blank x
      \/ is_LF (nth (skip_blank x) x 0%N) = true
      \/ g_unichar_isspace (nth (skip_blank x) x 0%N) = false).
Proof.
  induction x as [|c x [IH1 IH2]]; simpl.
  - split; [intros k Hk; lia | left; lia].
  - destruct (is_LF c) eqn:ELF.
    + split; [intros k Hk; lia | right; left; assumption].
    + destruct (g_unichar_isspace c) eqn:Esp.
      * split.
        -- intros [|k] Hk; [unfold blank; rewrite ELF, Esp; reflexivity|].
           apply IH1. lia.
        -- destruct IH2 as [H|[H|H]]; [left; lia | right; left; assumption
                                       | right; right; assumption].
      * split; [intros k Hk; lia | right; right; assumption].
Qed.

Lemma nth_skipn_at (t : list gunichar) :
  forall i k, nth k (skipn i t) 0%N = nth (i + k) t 0%N.
Proof.
  induction t as [|c t IH]; intros [|i] k; try reflexivity.
  - destruct k; reflexivity.
  - simpl. apply IH.
Qed.

(** X9: [forward_iter_to_text_start] aborts elsewhere than at the start of
    a line.  From the start of a line it moves forward over white space of
    that line only, and stops at the end of the line (or of the buffer) or
    at the first character that is not white space. *)
Theorem forward_iter_to_text_start_stops_at_text
  (t : list gunichar) (iter : GtkTextIter) :
  (gtk_text_iter_starts_line t iter = false ->
   forward_iter_to_text_start t iter = Abort AssertStartsLine)
  /\ (gtk_text_iter_starts_line t iter = true ->
      exists j,
        forward_iter_to_text_start t iter = Ok j
        /\ iter <= j
        /\ (forall i, iter <= i < j -> blank (gtk_text_iter_get_char t i) = true)
        /\ (gtk_text_iter_ends_line t j = true
            \/ g_unichar_isspace (gtk_text_iter_get_char t j) = false)).
Proof.
  unfold forward_iter_to_text_start. split; intros H; rewrite H; [reflexivity|].
  simpl. eexists. split; [reflexivity|]. split; [lia|].
  destruct (skip_blank_spec (skipn iter t)) as [H1 H2].
  assert (Hnth : forall k, nth k (skipn iter t) 0%N = gtk_text_iter_get_char t (iter + k)).
  { intros k. apply nth_skipn_at. }
  split.
  - intros i Hi. replace i with (iter + (i - iter)) by lia.
    rewrite <- Hnth. apply H1. lia.
  - rewrite Hnth in H2. unfold gtk_text_iter_ends_line, gtk_text_iter_is_end.
    destruct H2 as [H2|[H2|H2]].
    + left. rewrite length_skipn in H2.
      replace (length t <=? iter + skip_blank (skipn iter t)) with true
        by (symmetry; apply Nat.leb_le; lia).
      reflexivity.
    + left. rewrite H2. apply orb_true_r.
    + right. assumption.
Qed.

Lemma scan_tab_indentation (l : list gunichar) :
  scan_tab l = existsb is_TAB (firstn (skip_blank l) l).
Proof.
  induction l as [|c l IH]; simpl; [reflexivity|].
  destruct (is_LF c) eqn:ELF; [reflexivity|].
  destruct (is_TAB c) eqn:ETAB.
  - assert (Hsp : g_unichar_isspace c = true).
    { apply N.eqb_eq in ETAB. subst c. reflexivity. }
    rewrite Hsp. simpl. rewrite ETAB. reflexivity.
  - destruct (g_unichar_isspace c); [|reflexivity].
    simpl. rewrite ETAB. exact IH.
Qed.

(** X10: [indentation_contains_tab] answers for the line of the iterator,
    wherever the iterator is in it: whether a tab stands in the white space
    before the text of the line.  A tab behind the first character that is
    not white space does not count. *)
Theorem indentation_contains_tab_of_the_line
  (p l r : list gunichar) (k : nat) :
  gtk_text_iter_starts_line (p ++ l ++ r) (length p) = true ->
  noLF l -> at_line_end r -> k <= length l ->
  indentation_contains_tab (p ++ l ++ r) (length p + k)
  = existsb is_TAB (firstn (skip_blank l) l).
Proof.
  intros Hstart Hl Hr Hk. unfold indentation_contains_tab.
  rewrite line_start_in_line by assumption.
  rewrite skipn_app_exact, scan_tab_line by assumption.
  apply scan_tab_indentation.
Qed.

Lemma indentation_contains_tab_of_the_line_witness :
  indentation_contains_tab
    (text_of_lines [chars "f (a,"; [SPACE; TAB; SPACE] ++ chars "b,"; chars "c)"]) 9
  = true
  /\ indentation_contains_tab
       (text_of_lines [chars "f (a,"; chars "  b," ++ [TAB]; chars "c)"]) 6
     = false.
Proof.
  split.
  - apply (indentation_contains_tab_of_the_line
             (chars "f (a," ++ [LF]) ([SPACE; TAB; SPACE] ++ chars "b,")
             (LF :: chars "c)") 3);
      first [ each | computed | simpl; lia ].
  - apply (indentation_contains_tab_of_the_line
             (chars "f (a," ++ [LF]) (chars "  b," ++ [TAB])
             (LF :: chars "c)") 0);
      first [ each | computed | simpl; lia ].
Defined.

(** ** The run as a plain substitution *)

Lemma substitute_from_skipn (s r : list gunichar) (t : list gunichar) :
  forall n, substitute_from s r n t = substitute_from s r 0 (skipn n t).
Proof.
  induction t as [|c t IH]; intros [|n]; try reflexivity.
  simpl. apply IH.
Qed.

Lemma starts_with_length (s x : list gunichar) :
  starts_with s x = true -> length s <= length x.
Proof.
  revert x. induction s as [|a s IH]; intros [|c x] H; simpl in *; try lia;
    try discriminate.
  apply andb_true_iff in H. destruct H as [_ H]. apply IH in H. lia.
Qed.

Lemma substitute_from_none (s r x : list gunichar) :
  s <> [] -> find_text s x = None -> substitute_from s r 0 x = x.
Proof.
  intros Hs. induction x as [|c x IH]; intros H; [reflexivity|].
  rewrite find_text_unfold in H.
  cbn [substitute_from].
  destruct (starts_with s (c :: x)); [discriminate|].
  destruct (find_text s x); [discriminate|].
  f_equal. apply IH. reflexivity.
Qed.

Lemma substitute_from_some (s r x : list gunichar) :
  s <> [] ->
  forall k, find_text s x = Some k ->
  substitute_from s r 0 x
  = firstn k x ++ r ++ substitute_from s r 0 (skipn (k + length s) x).
Proof.
  intros Hs. induction x as [|c x IH]; intros k H.
  - rewrite find_text_unfold in H. destruct s as [|a s]; [congruence|].
    simpl in H. discriminate.
  - rewrite find_text_unfold in H. cbn [substitute_from].
    destruct (starts_with s (c :: x)) eqn:E.
    + injection H as <-. simpl firstn. simpl app at 1.
      rewrite substitute_from_skipn.
      destruct s as [|a s]; [congruence|].
      simpl. rewrite Nat.sub_0_r. reflexivity.
    + destruct (find_text s x) as [k'|]; [|discriminate].
      injection H as <-. simpl. f_equal. apply IH. reflexivity.
Qed.

Section PlainRuns.

(** A property [P] of the text behind the position of the search that every
    later position keeps, and under which a replacement leaves the lines that
    follow the match as they are. *)
Variables (s r : list gunichar) (P : list gunichar -> Prop).
Hypothesis P_skipn : forall x n, P x -> P (skipn n x).
Hypothesis replace_plain :
  forall (sub : Sub) (iter ms me : nat),
    search_text sub = s -> replacement sub = r ->
    P (skipn iter (text (buffer sub))) ->
    gtk_source_search_context_forward s (text (buffer sub)) iter = Some (ms, me) ->
    replace sub ms me
    = Some (Ok (set_buffer sub
                  (mkBuffer (firstn ms (text (buffer sub)) ++ r
                             ++ skipn me (text (buffer sub))) None),
                ms + length r)).

Lemma do_substitution_loop_plain (fuel : nat) :
  forall (sub : Sub) (iter : nat) (out : result Sub),
    search_text sub = s -> replacement sub = r ->
    P (skipn iter (text (buffer sub))) ->
    do_substitution_loop fuel sub iter = Some out ->
    exists m,
      out = Ok (set_buffer sub
                  (mkBuffer (firstn iter (text (buffer sub))
                             ++ plain_substitution s r (skipn iter (text (buffer sub))))
                            m)).
Proof.
  induction fuel as [|fuel IH]; intros sub iter out Hs Hr HP H; [discriminate|].
  cbn [do_substitution_loop] in H. rewrite Hs in H.
  destruct (gtk_source_search_context_forward s (text (buffer sub)) iter)
    as [[ms me]|] eqn:Ef.
  - rewrite (replace_plain sub iter ms me Hs Hr HP Ef) in H.
    pose proof Ef as Ef'. rewrite <- Hs in Ef'.
    destruct (search_forward_some _ _ _ _ _ Ef')
      as [Hne [Hle [Hme [pre [l0 [ls [Ht [Hlen [Hpre _]]]]]]]]].
    rewrite Hs in *.
    unfold gtk_source_search_context_forward in Ef.
    destruct s as [|a s'] eqn:Es; [congruence|]. rewrite <- Es in *.
    destruct (find_text s (skipn iter (text (buffer sub)))) as [k|] eqn:Ek;
      [|discriminate].
    injection Ef as <- <-.
    set (t := text (buffer sub)) in *.
    set (sub1 := set_buffer sub
                   (mkBuffer (firstn (iter + k) t ++ r
                              ++ skipn (iter + k + length s) t) None)) in *.
    assert (Hl : length (firstn (iter + k) t) = iter + k).
    { rewrite <- Hpre. exact Hlen. }
    assert (Hskip1 : skipn (iter + k + length r) (text (buffer sub1))
                     = skipn (iter + k + length s) t).
    { unfold sub1. cbn [text buffer set_buffer].
      rewrite app_assoc.
      replace (iter + k + length r) with (length (firstn (iter + k) t ++ r))
        by (rewrite length_app; lia).
      apply skipn_app_exact. }
    assert (Hfirst1 : firstn (iter + k + length r) (text (buffer sub1))
                      = firstn (iter + k) t ++ r).
    { unfold sub1. cbn [text buffer set_buffer].
      rewrite app_assoc.
      replace (iter + k + length r) with (length (firstn (iter + k) t ++ r))
        by (rewrite length_app; lia).
      apply firstn_app_exact. }
    destruct (IH sub1 (iter + k + length r) out) as [m Hout].
    + exact Hs.
    + exact Hr.
    + rewrite Hskip1.
      replace (skipn (iter + k + length s) t)
        with (skipn (k + length s) (skipn iter t))
        by (rewrite skipn_skipn; f_equal; lia).
      apply P_skipn. exact HP.
    + exact H.
    + exists m. rewrite Hout. unfold sub1 at 1, set_buffer.
      cbn [search_text replacement file]. f_equal. f_equal. f_equal.
      rewrite Hskip1, Hfirst1.
      unfold plain_substitution. rewrite Es, <- Es.
      rewrite (substitute_from_some s r (skipn iter t) Hne k Ek).
      rewrite firstn_add, skipn_skipn, <- !app_assoc.
      replace (k + length s + iter) with (iter + k + length s) by lia.
      reflexivity.
  - injection H as <-. exists (mark (buffer sub)).
    assert (Hid : plain_substitution s r (skipn iter (text (buffer sub)))
                  = skipn iter (text (buffer sub))).
    { unfold plain_substitution. destruct s as [|a s'] eqn:Es; [reflexivity|].
      rewrite <- Es in *. apply substitute_from_none; [congruence|].
      unfold gtk_source_search_context_forward in Ef. rewrite Es in Ef.
      rewrite <- Es in Ef.
      destruct (find_text s (skipn iter (text (buffer sub)))); [discriminate|].
      reflexivity. }
    rewrite Hid, firstn_skipn, set_buffer_same. reflexivity.
Qed.

End PlainRuns.

Lemma Forall_skipn_of {A : Type} (Q : A -> Prop) (x : list A) (n : nat) :
  Forall Q x -> Forall Q (skipn n x).
Proof.
  intros H. rewrite <- (firstn_skipn n x) in H. apply Forall_app in H. tauto.
Qed.

(** The text behind a match, as [replace] sees it. *)
Lemma replace_at_match_plain (sub : Sub) (iter ms me : nat) :
  gtk_source_search_context_forward (search_text sub) (text (buffer sub)) iter
  = Some (ms, me) ->
  exists pre l0 ls,
    text (buffer sub) = pre ++ search_text sub ++ l0 ++ more_lines ls
    /\ noLF l0 /\ Forall noLF ls
    /\ skipn iter (text (buffer sub))
       = skipn iter pre ++ search_text sub ++ l0 ++ more_lines ls
    /\ get_parenthesis_column sub me
       = anchor_column (last_line (pre ++ search_text sub)) l0
    /\ forall ls1,
        pre ++ replacement sub ++ l0 ++ more_lines ls
        = firstn ms (text (buffer sub)) ++ replacement sub
          ++ skipn me (text (buffer sub))
        /\ ((if (get_parenthesis_column sub me =? -1)%Z then Ok ls
             else realign_run sub (get_parenthesis_column sub me) ls) = Ok ls1 ->
            replace sub ms me
            = Some (Ok (set_buffer sub
                          (mkBuffer (pre ++ replacement sub ++ l0 ++ more_lines ls1)
                                    None),
                        ms + length (replacement sub)))).
Proof.
  intros Ef.
  destruct (replace_at_match sub iter ms me Ef)
    as [Hle [Hme [pre [l0 [ls [Ht [Hlen [Hpre [Hl0 [Hls Hrep]]]]]]]]]].
  exists pre, l0, ls. repeat (split; [assumption|]).
  split; [|split].
  - rewrite Ht at 1. apply skipn_app_le. lia.
  - subst me. rewrite <- Hlen, <- length_app.
    apply (get_parenthesis_column_after sub (pre ++ search_text sub) l0 (more_lines ls));
      [rewrite Ht, <- app_assoc; reflexivity | assumption
      | apply more_lines_at_line_end].
  - intros ls1. split.
    + rewrite <- Hpre. do 2 f_equal. subst me. rewrite <- Hlen.
      rewrite Ht at 1. rewrite app_assoc, <- length_app, skipn_app_exact. reflexivity.
    + intros Hrun. cbv zeta in Hrep. rewrite Hrep, Hrun. reflexivity.
Qed.

Lemma replace_without_parenthesis (sub : Sub) (iter ms me : nat) :
  Forall (fun c => is_LPAREN c = false) (skipn iter (text (buffer sub))) ->
  gtk_source_search_context_forward (search_text sub) (text (buffer sub)) iter
  = Some (ms, me) ->
  replace sub ms me
  = Some (Ok (set_buffer sub
                (mkBuffer (firstn ms (text (buffer sub)) ++ replacement sub
                           ++ skipn me (text (buffer sub))) None),
              ms + length (replacement sub))).
Proof.
  intros HP Ef.
  destruct (replace_at_match_plain sub iter ms me Ef)
    as [pre [l0 [ls [Ht [Hl0 [Hls [Hskip [Hpc Hrep]]]]]]]].
  destruct (Hrep ls) as [Heq Hr]. rewrite <- Heq. apply Hr.
  rewrite Hpc, anchor_column_none; [reflexivity|].
  rewrite Hskip in HP. apply Forall_app in HP. destruct HP as [_ HP].
  apply Forall_app in HP. destruct HP as [_ HP].
  apply Forall_app in HP. tauto.
Qed.

(** X11: on a text without an opening parenthesis the run is the plain
    substitution: it does not abort, and the buffer it returns holds
    [plain_substitution] of the text. *)
Theorem without_parenthesis_plain_substitution
  (fuel : nat) (sub : Sub) (out : result Sub) :
  Forall (fun c => is_LPAREN c = false) (text (buffer sub)) ->
  do_substitution fuel sub = Some out ->
  exists m,
    out = Ok (set_buffer sub
                (mkBuffer (plain_substitution (search_text sub) (replacement sub)
                             (text (buffer sub))) m)).
Proof.
  intros HP H. unfold do_substitution, gtk_text_buffer_get_start_iter in H.
  apply (do_substitution_loop_plain (search_text sub) (replacement sub)
           (Forall (fun c => is_LPAREN c = false))) in H.
  - exact H.
  - intros x n. apply Forall_skipn_of.
  - intros sub0 iter ms me Hs Hr HP0 Ef. rewrite <- Hs in Ef. rewrite <- Hr.
    apply (replace_without_parenthesis sub0 iter); assumption.
  - reflexivity.
  - reflexivity.
  - exact HP.
Qed.

Lemma without_parenthesis_plain_substitution_witness :
  let sub := mkSub (chars "aa") (chars "a") []
               (mkBuffer (text_of_lines [chars "aaa baab"; chars "  aaaa"]) None) in
  let sub' := set_buffer sub
                (mkBuffer (text_of_lines [chars "aa bab"; chars "  aa"]) None) in
  do_substitution 5 sub = Some (Ok sub')
  /\ exists m,
      Ok sub'
      = Ok (set_buffer sub
              (mkBuffer (plain_substitution (chars "aa") (chars "a")
                           (text (buffer sub))) m)).
Proof.
  cbv zeta. split; [vm_compute; reflexivity|].
  apply (without_parenthesis_plain_substitution 5
           (mkSub (chars "aa") (chars "a") []
              (mkBuffer (text_of_lines [chars "aaa baab"; chars "  aaaa"]) None)));
    first [ each | computed ].
Defined.

(** ** A replacement of the length of the search text *)

Lemma skip_blank_firstn (l : list gunichar) :
  Forall (fun c => blank c = true) (firstn (skip_blank l) l).
Proof.
  induction l as [|c l IH]; simpl; [constructor|].
  destruct (is_LF c) eqn:ELF; [constructor|].
  destruct (g_unichar_isspace c) eqn:Esp; [|constructor].
  simpl. constructor; [|assumption]. unfold blank. rewrite ELF, Esp. reflexivity.
Qed.

Lemma blank_space_or_text (c : gunichar) :
  blank c = true -> space_or_text c = true -> c = SPACE.
Proof.
  unfold blank, space_or_text. intros Hb Hs.
  apply andb_true_iff in Hb. destruct Hb as [Hlf Hsp].
  rewrite Hsp in Hs. destruct (is_LF c); [discriminate|]. simpl in Hs.
  rewrite orb_false_r in Hs. apply N.eqb_eq in Hs. assumption.
Qed.

Lemma spaces_only (ws : list gunichar) :
  Forall (fun c => blank c = true) ws ->
  Forall (fun c => space_or_text c = true) ws ->
  ws = repeat SPACE (length ws).
Proof.
  induction ws as [|c ws IH]; intros Hb Hs; [reflexivity|].
  inversion Hb as [|? ? Hb1 Hb2]; inversion Hs as [|? ? Hs1 Hs2]; subst.
  simpl. rewrite <- IH by assumption.
  rewrite (blank_space_or_text c Hb1 Hs1). reflexivity.
Qed.

Lemma column_of_spaces (n : nat) : column_of (repeat SPACE n) = n.
Proof.
  unfold column_of. rewrite fold_advance_no_tab.
  - rewrite repeat_length. reflexivity.
  - apply Forall_forall. intros c Hc. apply repeat_spec in Hc. subst c. reflexivity.
Qed.

Lemma realign_line_same (sub : Sub) (l : list gunichar) :
  length (search_text sub) = length (replacement sub) ->
  Forall (fun c => space_or_text c = true) l -> noLF l ->
  (Z.of_nat (length l) < 2147483648)%Z ->
  line_column l <> (-1)%Z ->
  realign_line sub l = Ok l.
Proof.
  intros Hlen Hl HLF Hfit Hcol.
  set (k := skip_blank l).
  pose proof (skip_blank_le l) as Hk. fold k in Hk.
  assert (Hws : firstn k l = repeat SPACE k).
  { pose proof (spaces_only (firstn k l) (skip_blank_firstn l)) as H.
    rewrite length_firstn, Nat.min_l in H by assumption.
    apply H. rewrite <- (firstn_skipn k l) in Hl. apply Forall_app in Hl. tauto. }
  assert (Hlt : k < length l).
  { destruct (Nat.lt_ge_cases k (length l)) as [H|H]; [assumption|].
    exfalso. apply Hcol. apply line_column_blank. assumption. }
  assert (Hc : line_column l = Z.of_nat k).
  { unfold line_column. fold k.
    destruct (length l <=? k) eqn:E; [apply Nat.leb_le in E; lia|].
    rewrite Hws, column_of_spaces. apply to_gint_small. lia. }
  assert (Hx : exists c x, skipn k l = c :: x /\ g_unichar_isspace c = false).
  { destruct (skipn k l) as [|c x] eqn:E.
    - apply (f_equal (@length _)) in E. rewrite length_skipn in E. simpl in E. lia.
    - exists c, x. split; [reflexivity|].
      pose proof (skip_blank_skipn l) as H0. fold k in H0. rewrite E in H0.
      assert (HcLF : is_LF c = false).
      { rewrite <- (firstn_skipn k l), E in HLF. apply Forall_app in HLF.
        destruct HLF as [_ HLF]. inversion HLF. assumption. }
      simpl in H0. rewrite HcLF in H0.
      destruct (g_unichar_isspace c); [discriminate|reflexivity]. }
  destruct Hx as [c [x [Hx Hsp]]].
  unfold realign_line. rewrite Hc.
  assert (Hn : new_length_of sub (Z.of_nat k) = Z.of_nat k).
  { unfold new_length_of, g_utf8_strlen. rewrite Hlen.
    replace (Z.of_nat k - Z.of_nat (length (replacement sub))
             + Z.of_nat (length (replacement sub)))%Z with (Z.of_nat k) by lia.
    apply to_gint_small. lia. }
  rewrite Hn.
  destruct (0 <=? Z.of_nat k)%Z eqn:E; [|apply Z.leb_gt in E; lia].
  f_equal. fold k.
  assert (Htab : scan_tab l = false).
  { rewrite <- (firstn_skipn k l), Hx.
    rewrite scan_tab_ws.
    - rewrite Hws. clear. induction k as [|k IH]; [reflexivity|exact IH].
    - apply skip_blank_firstn.
    - apply (not_space_stops c x Hsp). }
  rewrite Htab. unfold indentation, g_strnfill. rewrite Nat2Z.id, <- Hws.
  apply firstn_skipn.
Qed.

Lemma realign_run_same (sub : Sub) (pc : Z) (ls : list (list gunichar)) :
  length (search_text sub) = length (replacement sub) ->
  Forall (fun l => Forall (fun c => space_or_text c = true) l) ls ->
  Forall noLF ls ->
  Forall (fun l => (Z.of_nat (length l) < 2147483648)%Z) ls ->
  pc <> (-1)%Z ->
  realign_run sub pc ls = Ok ls.
Proof.
  intros Hlen Hs HLF Hfit Hpc.
  induction ls as [|l ls IH]; [reflexivity|].
  inversion Hs; inversion HLF; inversion Hfit; subst.
  cbn [realign_run].
  destruct (line_column l =? pc)%Z eqn:E; [|reflexivity].
  apply Z.eqb_eq in E.
  rewrite realign_line_same, IH by (assumption || congruence). reflexivity.
Qed.

Lemma more_lines_Forall (Q : gunichar -> Prop) (ls : list (list gunichar)) :
  Forall Q (more_lines ls) -> Forall (Forall Q) ls.
Proof.
  induction ls as [|l ls IH]; intros H; [constructor|].
  rewrite more_lines_cons in H. inversion H as [|? ? _ H']; subst.
  apply Forall_app in H'. destruct H' as [H1 H2]. constructor; auto.
Qed.

Lemma more_lines_lengths (ls : list (list gunichar)) :
  Forall (fun l => length l <= length (more_lines ls)) ls.
Proof.
  induction ls as [|l ls IH]; [constructor|].
  rewrite more_lines_cons. constructor.
  - simpl. rewrite length_app. lia.
  - eapply Forall_impl; [|exact IH]. intros l' H. simpl in *.
    rewrite length_app. lia.
Qed.

Lemma replace_same_length (sub : Sub) (iter ms me : nat) :
  length (search_text sub) = length (replacement sub) ->
  spaces_within_gint (skipn iter (text (buffer sub))) ->
  gtk_source_search_context_forward (search_text sub) (text (buffer sub)) iter
  = Some (ms, me) ->
  replace sub ms me
  = Some (Ok (set_buffer sub
                (mkBuffer (firstn ms (text (buffer sub)) ++ replacement sub
                           ++ skipn me (text (buffer sub))) None),
              ms + length (replacement sub))).
Proof.
  intros Hlen [HP Hfit] Ef.
  destruct (replace_at_match_plain sub iter ms me Ef)
    as [pre [l0 [ls [Ht [Hl0 [Hls [Hskip [Hpc Hrep]]]]]]]].
  destruct (Hrep ls) as [Heq Hr]. rewrite <- Heq. apply Hr.
  destruct (get_parenthesis_column sub me =? -1)%Z eqn:E; [reflexivity|].
  apply Z.eqb_neq in E.
  rewrite Hskip in HP, Hfit.
  rewrite !length_app in Hfit.
  apply Forall_app in HP. destruct HP as [_ HP].
  apply Forall_app in HP. destruct HP as [_ HP].
  apply Forall_app in HP. destruct HP as [_ HP].
  apply realign_run_same; try assumption.
  - apply more_lines_Forall. assumption.
  - eapply Forall_impl; [|apply more_lines_lengths]. intros l Hl. simpl in Hl. lia.
Qed.

(** X12: a replacement as long as the search text, in a text whose white
    space is made of spaces and line feeds (and short enough for its columns
    to fit a [gint]), is the plain substitution: the run does not abort and
    no indentation changes. *)
Theorem same_length_plain_substitution
  (fuel : nat) (sub : Sub) (out : result Sub) :
  length (search_text sub) = length (replacement sub) ->
  Forall (fun c => space_or_text c = true) (text (buffer sub)) ->
  (Z.of_nat (length (text (buffer sub))) < 2147483648)%Z ->
  do_substitution fuel sub = Some out ->
  exists m,
    out = Ok (set_buffer sub
                (mkBuffer (plain_substitution (search_text sub) (replacement sub)
                             (text (buffer sub))) m)).
Proof.
  intros Hlen HP Hfit H. unfold do_substitution, gtk_text_buffer_get_start_iter in H.
  apply (do_substitution_loop_plain (search_text sub) (replacement sub)
           spaces_within_gint) in H.
  - exact H.
  - intros x n [H1 H2]. split; [apply Forall_skipn_of; assumption|].
    rewrite length_skipn. lia.
  - intros sub0 iter ms me Hs Hr HP0 Ef. rewrite <- Hs in Ef. rewrite <- Hr.
    apply (replace_same_length sub0 iter); try assumption. congruence.
  - reflexivity.
  - reflexivity.
  - split; assumption.
Qed.

Lemma same_length_plain_substitution_witness :
  let sub := mkSub (chars "foo") (chars "bar") []
               (mkBuffer (text_of_lines [chars "foo (a, foo (b,";
                                         chars "             c),";
                                         chars "     foo)"]) None) in
  let sub' := set_buffer sub
                (mkBuffer (text_of_lines [chars "bar (a, bar (b,";
                                          chars "             c),";
                                          chars "     bar)"]) None) in
  do_substitution 4 sub = Some (Ok sub')
  /\ exists m,
      Ok sub'
      = Ok (set_buffer sub
              (mkBuffer (plain_substitution (chars "foo") (chars "bar")
                           (text (buffer sub))) m)).
Proof.
  cbv zeta. split; [vm_compute; reflexivity|].
  apply (same_length_plain_substitution 4
           (mkSub (chars "foo") (chars "bar") []
              (mkBuffer (text_of_lines [chars "foo (a, foo (b,";
                                        chars "             c),";
                                        chars "     foo)"]) None)));
    first [ each | computed ].
Defined.

(** With a tab in the indentation the replacement of the length of the search
    text still rewrites the indentation: two spaces and a tab become a
    tab. *)
Example same_length_with_tabs :
  run 2 (chars "foo") (chars "bar")
    (text_of_lines [chars "foo bar (a,"; [SPACE; SPACE; TAB; SPACE] ++ chars "b)"])
  = Some (Ok (text_of_lines [chars "bar bar (a,"; [TAB; SPACE] ++ chars "b)"])).
Proof. vm_compute. reflexivity. Qed.

(** ** Indentation apart *)

Lemma unindent_app_eq (u v v' : list gunichar) :
  (forall b, unindent b v = unindent b v') ->
  forall b, unindent b (u ++ v) = unindent b (u ++ v').
Proof.
  intros H. induction u as [|c u IH]; intros b; simpl; [apply H|].
  destruct (is_LF c); [rewrite IH; reflexivity|].
  destruct (b && g_unichar_isspace c); rewrite IH; reflexivity.
Qed.

Lemma unindent_blank (ws y : list gunichar) :
  Forall (fun c => blank c = true) ws -> unindent true (ws ++ y) = unindent true y.
Proof.
  induction 1 as [|c ws Hc _ IH]; [reflexivity|].
  apply blank_cases in Hc. destruct Hc as [H1 H2].
  simpl. rewrite H1, H2. exact IH.
Qed.

Lemma starts_with_line (s l rest : list gunichar) :
  noLF s -> at_line_end rest -> starts_with s (l ++ rest) = starts_with s l.
Proof.
  intros Hs Hrest. revert l. induction Hs as [|a s Ha _ IH]; intros l; [destruct l; reflexivity|].
  destruct l as [|c l]; simpl.
  - destruct rest as [|c rest]; [reflexivity|]. simpl in Hrest.
    destruct (N.eqb_spec a c) as [->|]; [congruence|reflexivity].
  - rewrite IH. reflexivity.
Qed.

Lemma substitute_from_lines (s r l rest : list gunichar) :
  noLF s -> s <> [] -> noLF l -> at_line_end rest ->
  forall n, n <= length l ->
  substitute_from s r n (l ++ rest)
  = substitute_from s r n l ++ substitute_from s r 0 rest.
Proof.
  intros Hs Hne Hl Hrest. induction Hl as [|c l Hc _ IH]; intros n Hn.
  - simpl in Hn. replace n with 0 by lia. reflexivity.
  - change ((c :: l) ++ rest) with (c :: l ++ rest).
    destruct n as [|n]; cbn [substitute_from].
    + change (c :: l ++ rest) with ((c :: l) ++ rest).
      rewrite starts_with_line by assumption.
      destruct (starts_with s (c :: l)) eqn:E.
      * apply starts_with_length in E. simpl in E.
        rewrite IH by lia. rewrite app_assoc. reflexivity.
      * rewrite IH by lia. reflexivity.
    + apply IH. simpl in Hn. lia.
Qed.

Lemma substitute_from_blank (s r ws y : list gunichar) :
  within_a_line s -> Forall (fun c => blank c = true) ws ->
  substitute_from s r 0 (ws ++ y) = ws ++ substitute_from s r 0 y.
Proof.
  intros [_ Hs] Hws. induction Hws as [|c ws Hc _ IH]; [reflexivity|].
  destruct s as [|a s]; [contradiction|].
  apply blank_cases in Hc. destruct Hc as [_ Hc].
  change ((c :: ws) ++ y) with (c :: ws ++ y).
  cbn [substitute_from starts_with].
  destruct (N.eqb_spec a c) as [->|]; [congruence|].
  simpl. rewrite IH. reflexivity.
Qed.

Lemma substitute_from_LF (s r rest : list gunichar) :
  noLF s -> s <> [] ->
  substitute_from s r 0 (LF :: rest) = LF :: substitute_from s r 0 rest.
Proof.
  intros Hs Hne. destruct s as [|a s]; [congruence|].
  inversion Hs as [|? ? Ha _]; subst.
  cbn [substitute_from starts_with].
  destruct (N.eqb_spec a LF) as [->|]; [discriminate|reflexivity].
Qed.

Lemma same_text_refl (l : list gunichar) : same_text l l.
Proof. exists [], [], l. repeat split; constructor. Qed.

Lemma realign_run_same_text (sub : Sub) (pc : Z) (ls ls1 : list (list gunichar)) :
  realign_run sub pc ls = Ok ls1 -> Forall2 same_text ls1 ls.
Proof.
  revert ls1. induction ls as [|l ls IH]; intros ls1 H; simpl in H.
  - injection H as <-. constructor.
  - destruct (line_column l =? pc)%Z.
    + unfold realign_line in H.
      destruct (0 <=? new_length_of sub (line_column l))%Z; [|discriminate].
      simpl in H.
      destruct (realign_run sub pc ls) as [ls2|]; [|discriminate].
      simpl in H. injection H as <-. constructor; [|apply IH; reflexivity].
      exists (indentation (scan_tab l) (new_length_of sub (line_column l))),
        (firstn (skip_blank l) l), (skipn (skip_blank l) l).
      repeat split.
      * symmetry. apply firstn_skipn.
      * apply indentation_blank.
      * apply skip_blank_firstn.
    + injection H as <-. clear IH.
      induction (l :: ls); constructor; [apply same_text_refl|assumption].
Qed.

Lemma same_text_noLF (l1 l : list gunichar) : same_text l1 l -> noLF l -> noLF l1.
Proof.
  intros [ws1 [ws [body [-> [-> [H1 _]]]]]] H.
  apply noLF_app. apply noLF_app in H. split; [apply blank_noLF; assumption|tauto].
Qed.

Lemma substitute_same_text (s r : list gunichar) (ls1 ls : list (list gunichar)) :
  within_a_line s -> Forall2 same_text ls1 ls -> Forall noLF ls ->
  forall b,
    unindent b (substitute_from s r 0 (more_lines ls1))
    = unindent b (substitute_from s r 0 (more_lines ls)).
Proof.
  intros Hs H. induction H as [|l1 l ls1 ls Hl _ IH]; intros HLF b; [reflexivity|].
  inversion HLF as [|? ? Hl' HLF']; subst.
  pose proof (same_text_noLF _ _ Hl Hl') as Hl1.
  assert (Hne : s <> []) by (destruct Hs as [_ Hs]; destruct s; [contradiction|discriminate]).
  destruct Hs as [HsLF Hs0].
  rewrite !more_lines_cons, !substitute_from_LF by assumption.
  rewrite !substitute_from_lines
    by (assumption || lia || apply more_lines_at_line_end).
  destruct Hl as [ws1 [ws [body [-> [-> [Hws1 Hws]]]]]].
  rewrite !substitute_from_blank by (assumption || split; assumption).
  change (unindent b (LF :: ?x)) with (LF :: unindent true x). f_equal.
  rewrite <- !app_assoc.
  rewrite (unindent_blank ws1), (unindent_blank ws) by assumption.
  apply unindent_app_eq. intros b'. apply IH. assumption.
Qed.

Lemma substitute_at_match (s r t : list gunichar) (iter ms me : nat) :
  gtk_source_search_context_forward s t iter = Some (ms, me) ->
  substitute_from s r 0 (skipn iter t)
  = firstn (ms - iter) (skipn iter t) ++ r ++ substitute_from s r 0 (skipn me t).
Proof.
  unfold gtk_source_search_context_forward. intros H.
  destruct s as [|a s'] eqn:Es; [discriminate|]. rewrite <- Es in *.
  destruct (find_text s (skipn iter t)) as [k|] eqn:Ek; [|discriminate].
  injection H as <- <-.
  rewrite (substitute_from_some s r (skipn iter t)) with (k := k)
    by (congruence || assumption).
  rewrite skipn_skipn.
  replace (iter + k - iter) with k by lia.
  replace (k + length s + iter) with (iter + k + length s) by lia.
  reflexivity.
Qed.

Lemma do_substitution_loop_modulo_indentation (s r : list gunichar) (fuel : nat) :
  within_a_line s ->
  forall (sub : Sub) (iter : nat) (sub' : Sub),
    search_text sub = s -> replacement sub = r ->
    iter <= length (text (buffer sub)) ->
    do_substitution_loop fuel sub iter = Some (Ok sub') ->
    forall b,
      unindent b (skipn iter (text (buffer sub')))
      = unindent b (substitute_from s r 0 (skipn iter (text (buffer sub)))).
Proof.
  intros Hw. induction fuel as [|fuel IH]; intros sub iter sub' Hs Hr Hiter H b;
    [discriminate|].
  pose proof H as Hloop.
  cbn [do_substitution_loop] in H.
  destruct (gtk_source_search_context_forward
              (search_text sub) (text (buffer sub)) iter) as [[ms me]|] eqn:Ef.
  - destruct (replace_at_match sub iter ms me Ef)
      as [Hle [Hme [pre [l0 [ls [Ht [Hlen [Hpre [Hl0 [Hls Hrep]]]]]]]]]].
    cbv zeta in Hrep. rewrite Hrep in H.
    destruct (if (get_parenthesis_column sub me =? -1)%Z then Ok ls
              else realign_run sub (get_parenthesis_column sub me) ls)
      as [ls1|f] eqn:Erun; [|discriminate].
    assert (Hsame : Forall2 same_text ls1 ls).
    { destruct (get_parenthesis_column sub me =? -1)%Z.
      - injection Erun as <-. clear. induction ls; constructor;
          [apply same_text_refl|assumption].
      - eapply realign_run_same_text; eassumption. }
    set (sub1 := set_buffer sub
                   (mkBuffer (pre ++ replacement sub ++ l0 ++ more_lines ls1) None))
      in *.
    set (me1 := ms + length (replacement sub)) in *.
    assert (Hskip1 : skipn me1 (text (buffer sub1)) = l0 ++ more_lines ls1).
    { unfold sub1, me1. simpl. rewrite app_assoc, <- Hlen, <- length_app.
      apply skipn_app_exact. }
    assert (Hfirst1 : firstn me1 (text (buffer sub1)) = pre ++ replacement sub).
    { unfold sub1, me1. simpl. rewrite app_assoc, <- Hlen, <- length_app.
      apply firstn_app_exact. }
    assert (Hme1 : me1 <= length (text (buffer sub1))).
    { unfold sub1, me1. simpl. rewrite !length_app. lia. }
    pose proof (IH sub1 me1 sub' Hs Hr Hme1 H) as IH1.
    destruct (do_substitution_loop_keeps_prefix _ _ _ _ H Hme1) as [Hkeep _].
    rewrite Hfirst1 in Hkeep. rewrite Hskip1 in IH1.
    rewrite <- (firstn_skipn me1 (text (buffer sub'))), Hkeep.
    rewrite Hs in Ef.
    rewrite (substitute_at_match s r _ _ _ _ Ef).
    assert (Hx : firstn (ms - iter) (skipn iter (text (buffer sub))) = skipn iter pre).
    { rewrite Ht, skipn_app_le by lia.
      replace (ms - iter) with (length (skipn iter pre))
        by (rewrite length_skipn; lia).
      apply firstn_app_exact. }
    assert (Hy : skipn me (text (buffer sub)) = l0 ++ more_lines ls).
    { rewrite Ht, Hme, <- Hlen, app_assoc, <- length_app. apply skipn_app_exact. }
    rewrite Hx, Hy, <- app_assoc, skipn_app_le by lia.
    rewrite Hr. rewrite !(app_assoc (skipn iter pre)).
    apply unindent_app_eq. intros b'. rewrite IH1.
    destruct Hw as [HsLF Hs0].
    assert (Hne : s <> []) by (destruct s; [contradiction|discriminate]).
    rewrite !(substitute_from_lines s r l0)
      by (assumption || lia || apply more_lines_at_line_end).
    apply unindent_app_eq. intros b''.
    apply substitute_same_text; [split|..]; assumption.
  - injection H as <-. rewrite Hs in Ef.
    rewrite substitute_from_none; [reflexivity| |].
    + destruct Hw as [_ Hw]. destruct s; [contradiction|discriminate].
    + unfold gtk_source_search_context_forward in Ef.
      destruct s as [|a s'] eqn:Es; [destruct Hw as [_ []]|]. rewrite <- Es in *.
      destruct (find_text s (skipn iter (text (buffer sub)))); [discriminate|].
      reflexivity.
Qed.

(** X13: the run and the plain substitution differ by indentation only.
    For a search text without line feed that starts with a character that
    is not white space, the buffer the run returns and [plain_substitution]
    of the text are equal once the white space at the start of every line
    but the first is dropped. *)
Theorem substitution_modulo_indentation (fuel : nat) (sub sub' : Sub) :
  within_a_line (search_text sub) ->
  do_substitution fuel sub = Some (Ok sub') ->
  unindent false (text (buffer sub'))
  = unindent false
      (plain_substitution (search_text sub) (replacement sub) (text (buffer sub))).
Proof.
  intros Hw H. unfold do_substitution, gtk_text_buffer_get_start_iter in H.
  pose proof (do_substitution_loop_modulo_indentation
                (search_text sub) (replacement sub) fuel Hw sub 0 sub'
                eq_refl eq_refl (Nat.le_0_l _) H false) as Hm.
  simpl skipn in Hm. rewrite Hm. unfold plain_substitution.
  destruct Hw as [_ Hw]. destruct (search_text sub); [contradiction|reflexivity].
Qed.

Lemma substitution_modulo_indentation_witness :
  let sub := mkSub (chars "f") (chars "call") []
               (mkBuffer (text_of_lines [chars "  f (a, f (b,";
                                         chars "     f (c),";
                                         chars "          d))"]) None) in
  let sub' := set_buffer sub
                (mkBuffer (text_of_lines [chars "  call (a, call (b,";
                                          chars "        call (c),";
                                          chars "          d))"]) None) in
  do_substitution 4 sub = Some (Ok sub')
  /\ unindent false (text (buffer sub'))
     = unindent false (plain_substitution (chars "f") (chars "call") (text (buffer sub))).
Proof.
  cbv zeta. split; [vm_compute; reflexivity|].
  apply (substitution_modulo_indentation 4
           (mkSub (chars "f") (chars "call") []
              (mkBuffer (text_of_lines [chars "  f (a, f (b,";
                                        chars "     f (c),";
                                        chars "          d))"]) None)));
    [ split; [each | reflexivity] | vm_compute; reflexivity ].
Defined.

(** The search text has to start with text: a search text that starts with
    spaces may lose an occurrence to the realignment. *)
Example leading_space_in_search_text :
  let s := chars "  b" in
  let r := [] in
  let t := text_of_lines [chars "  b("; chars "    b"] in
  exists t',
    run 3 s r t = Some (Ok t')
    /\ unindent false t' <> unindent false (plain_substitution s r t).
Proof.
  cbv zeta. eexists. split; [vm_compute; reflexivity|]. vm_compute. discriminate.
Qed.

(** ** A run that does not abort *)

Lemma longest_from_ge (t : list gunichar) : forall c, c <= longest_from c t.
Proof.
  induction t as [|a t IH]; intros c; simpl; [lia|].
  destruct (is_LF a); [lia|]. specialize (IH (S c)). lia.
Qed.

Lemma longest_from_shift (t : list gunichar) :
  forall c d, longest_from (c + d) t <= longest_from c t + d.
Proof.
  induction t as [|a t IH]; intros c d; simpl; [lia|].
  destruct (is_LF a); [lia|]. apply (IH (S c) d).
Qed.

Lemma longest_from_mono (t : list gunichar) :
  forall c c', c <= c' -> longest_from c t <= longest_from c' t.
Proof.
  induction t as [|a t IH]; intros c c' H; simpl; [lia|].
  destruct (is_LF a); [lia|]. apply IH. lia.
Qed.

Lemma longest_from_line (l r : list gunichar) :
  noLF l -> forall c, longest_from c (l ++ r) = longest_from (c + length l) r.
Proof.
  induction 1 as [|a l Ha _ IH]; intros c; simpl.
  - rewrite Nat.add_0_r. reflexivity.
  - rewrite Ha, IH. f_equal. lia.
Qed.

Lemma longest_from_length (t : list gunichar) :
  forall c, longest_from c t <= c + length t.
Proof.
  induction t as [|a t IH]; intros c; simpl; [lia|].
  destruct (is_LF a).
  - specialize (IH 0). lia.
  - specialize (IH (S c)). lia.
Qed.

Lemma longest_from_holds (p l r : list gunichar) :
  noLF l -> forall c, length l <= longest_from c (p ++ l ++ r).
Proof.
  intros Hl. induction p as [|a p IH]; intros c.
  - simpl. rewrite longest_from_line by assumption.
    pose proof (longest_from_ge r (c + length l)). lia.
  - simpl. destruct (is_LF a).
    + specialize (IH 0). lia.
    + apply IH.
Qed.

Lemma longest_from_app_le (p x x' : list gunichar) (d : nat) :
  (forall c, longest_from c x' <= longest_from c x + d) ->
  forall c, longest_from c (p ++ x') <= longest_from c (p ++ x) + d.
Proof.
  intros H. induction p as [|a p IH]; intros c; simpl; [apply H|].
  destruct (is_LF a).
  - specialize (IH 0). lia.
  - apply IH.
Qed.

Lemma longest_from_inserted (r y : list gunichar) :
  forall c, longest_from c (r ++ y) <= longest_from (c + length r) y.
Proof.
  induction r as [|a r IH]; intros c; simpl.
  - rewrite Nat.add_0_r. lia.
  - destruct (is_LF a).
    + specialize (IH 0). simpl in IH.
      pose proof (longest_from_mono y (length r) (c + S (length r)) ltac:(lia)).
      pose proof (longest_from_ge y (c + S (length r))). lia.
    + specialize (IH (S c)). replace (c + S (length r)) with (S c + length r) by lia.
      exact IH.
Qed.

Lemma longest_from_lines (K : nat) (ls1 ls : list (list gunichar)) :
  Forall2 (fun l1 l => length l1 <= length l + K) ls1 ls ->
  Forall noLF ls1 -> Forall noLF ls ->
  forall c c', c' <= c + K ->
  longest_from c' (more_lines ls1) <= longest_from c (more_lines ls) + K.
Proof.
  induction 1 as [|l1 l ls1 ls Hl _ IH]; intros H1 H2 c c' Hc.
  - simpl. lia.
  - inversion H1; inversion H2; subst.
    rewrite !more_lines_cons.
    cbn [longest_from]. change (is_LF LF) with true. cbv iota.
    rewrite !longest_from_line by assumption.
    specialize (IH ltac:(assumption) ltac:(assumption)
                   (0 + length l) (0 + length l1) ltac:(lia)).
    lia.
Qed.

Lemma realign_line_length (sub : Sub) (l l1 : list gunichar) :
  realign_line sub l = Ok l1 ->
  line_column l <> (-1)%Z ->
  (8 * Z.of_nat (length l) + Z.of_nat (length (replacement sub)) < 2147483648)%Z ->
  (Z.of_nat (length (search_text sub)) <= 2147483648)%Z ->
  length l1 <= length l + (length (replacement sub) + 8).
Proof.
  unfold realign_line. intros H Hcol Hfit Hs.
  destruct (0 <=? new_length_of sub (line_column l))%Z eqn:En; [|discriminate].
  apply Z.leb_le in En. injection H as <-.
  set (k := skip_blank l) in *.
  pose proof (skip_blank_le l) as Hk. fold k in Hk.
  assert (Hc : line_column l = Z.of_nat (column_of (firstn k l))
               /\ column_of (firstn k l) <= 8 * k).
  { unfold line_column in *. fold k in Hcol |- *.
    destruct (length l <=? k); [congruence|].
    pose proof (fold_advance_le (firstn k l) 0) as Hle.
    rewrite length_firstn, Nat.min_l in Hle by assumption.
    unfold tab_width in Hle. fold (column_of (firstn k l)) in Hle.
    split; [apply to_gint_small; lia | lia]. }
  destruct Hc as [Hc Hle]. rewrite Hc in *.
  set (col := column_of (firstn k l)) in *.
  assert (Hn : new_length_of sub (Z.of_nat col)
               = (Z.of_nat col - Z.of_nat (length (search_text sub))
                  + Z.of_nat (length (replacement sub)))%Z).
  { unfold new_length_of, g_utf8_strlen. apply to_gint_small. lia. }
  rewrite Hn in *.
  set (n := (Z.of_nat col - Z.of_nat (length (search_text sub))
             + Z.of_nat (length (replacement sub)))%Z) in *.
  rewrite length_app, length_skipn.
  assert (Hind : length (indentation (scan_tab l) n)
                 <= k + (length (replacement sub) + 8)).
  { unfold indentation, g_strnfill. rewrite scan_tab_indentation. fold k.
    destruct (existsb is_TAB (firstn k l)) eqn:Etab.
    - rewrite length_app, !repeat_length.
      rewrite Z.quot_div_nonneg, Z.rem_mod_nonneg by lia.
      pose proof (Z.mod_pos_bound n 8 ltac:(lia)).
      pose proof (Z.div_pos n 8 En ltac:(lia)).
      assert (n / 8 <= Z.of_nat k + Z.of_nat (length (replacement sub)))%Z.
      { apply Z.div_le_upper_bound; lia. }
      lia.
    - rewrite repeat_length.
      assert (Hno : Forall (fun c => is_TAB c = false) (firstn k l)).
      { apply Forall_forall. intros c Hin.
        destruct (is_TAB c) eqn:E; [|reflexivity].
        assert (existsb is_TAB (firstn k l) = true)
          by (apply existsb_exists; exists c; auto).
        congruence. }
      assert (col = k).
      { unfold col, column_of. rewrite fold_advance_no_tab by assumption.
        rewrite length_firstn. lia. }
      lia. }
  lia.
Qed.

Lemma realign_run_lengths (sub : Sub) (pc : Z) (ls ls1 : list (list gunichar)) :
  realign_run sub pc ls = Ok ls1 ->
  pc <> (-1)%Z ->
  Forall (fun l => (8 * Z.of_nat (length l) + Z.of_nat (length (replacement sub))
                    < 2147483648)%Z) ls ->
  (Z.of_nat (length (search_text sub)) <= 2147483648)%Z ->
  Forall2 (fun l1 l => length l1 <= length l + (length (replacement sub) + 8)) ls1 ls.
Proof.
  intros H Hpc Hfit Hs. revert ls1 H.
  induction Hfit as [|l ls Hl _ IH]; intros ls1 H; simpl in H.
  - injection H as <-. constructor.
  - destruct (line_column l =? pc)%Z eqn:E.
    + apply Z.eqb_eq in E.
      destruct (realign_line sub l) as [l1|] eqn:El; [|discriminate]. simpl in H.
      destruct (realign_run sub pc ls) as [ls2|]; [|discriminate]. simpl in H.
      injection H as <-. constructor; [|apply IH; reflexivity].
      apply (realign_line_length sub l l1 El); [congruence|assumption|assumption].
    + injection H as <-. clear.
      induction (l :: ls); constructor; [lia|assumption].
Qed.

Lemma unindent_lines (ls1 ls : list (list gunichar)) :
  Forall2 same_text ls1 ls ->
  forall b, unindent b (more_lines ls1) = unindent b (more_lines ls).
Proof.
  induction 1 as [|l1 l ls1 ls Hl _ IH]; intros b; [reflexivity|].
  destruct Hl as [ws1 [ws [body [-> [-> [Hws1 Hws]]]]]].
  rewrite !more_lines_cons.
  change (unindent b (LF :: ?x)) with (LF :: unindent true x). f_equal.
  rewrite <- !app_assoc.
  rewrite (unindent_blank ws1), (unindent_blank ws) by assumption.
  apply unindent_app_eq. exact IH.
Qed.

Lemma unindent_text (s y : list gunichar) (b : bool) :
  within_a_line s -> unindent b (s ++ y) = s ++ unindent false y.
Proof.
  intros [HLF Hs]. destruct s as [|a s]; [contradiction|].
  inversion HLF as [|? ? Ha Hs']; subst.
  simpl. rewrite Ha, Hs, andb_false_r. f_equal.
  clear Ha Hs HLF. induction Hs' as [|c s Hc _ IH]; [reflexivity|].
  simpl. rewrite Hc. f_equal. exact IH.
Qed.

Lemma unindent_app_length (x z : list gunichar) (m : nat) :
  (forall b, m <= length (unindent b z)) ->
  forall b, m <= length (unindent b (x ++ z)).
Proof.
  intros H. induction x as [|a x IH]; intros b; simpl; [apply H|].
  destruct (is_LF a); [simpl; specialize (IH true); lia|].
  destruct (b && g_unichar_isspace a); simpl; [apply IH|].
  specialize (IH false). lia.
Qed.

Lemma unindent_length (t : list gunichar) :
  forall b, length (unindent b t) <= length t.
Proof.
  induction t as [|a t IH]; intros b; simpl; [lia|].
  destruct (is_LF a); [simpl; specialize (IH true); lia|].
  destruct (b && g_unichar_isspace a); simpl.
  - specialize (IH true). lia.
  - specialize (IH false). lia.
Qed.

Lemma more_lines_holds (l : list gunichar) (ls : list (list gunichar)) :
  In l ls -> exists a b, more_lines ls = a ++ l ++ b.
Proof.
  induction ls as [|l' ls IH]; intros H; [contradiction|].
  rewrite more_lines_cons. destruct H as [->|H].
  - exists [LF], (more_lines ls). reflexivity.
  - destruct (IH H) as [a [b Hab]]. exists (LF :: l' ++ a), b.
    rewrite Hab. simpl. rewrite <- app_assoc. reflexivity.
Qed.

(** The width [adjust_alignment] computes for the lines that follow a match
    is not negative when the search text holds no line feed and the columns
    of the line of the match fit a [gint]. *)
Lemma new_length_not_negative
  (sub : Sub) (pre l0 : list gunichar) (ls : list (list gunichar)) :
  text (buffer sub) = pre ++ search_text sub ++ l0 ++ more_lines ls ->
  noLF (search_text sub) -> noLF l0 ->
  (8 * Z.of_nat (length (last_line pre ++ search_text sub ++ l0))
   + Z.of_nat (length (replacement sub)) < 2147483648)%Z ->
  let pc := get_parenthesis_column sub (length pre + length (search_text sub)) in
  pc <> (-1)%Z -> (0 <= new_length_of sub pc)%Z.
Proof.
  intros Htext HsLF Hl0 Hfit pc Epc.
  assert (Hpc : pc = anchor_column (last_line (pre ++ search_text sub)) l0).
  { unfold pc. rewrite <- length_app.
    apply (get_parenthesis_column_after sub (pre ++ search_text sub) l0 (more_lines ls));
      [rewrite Htext, <- app_assoc; reflexivity | assumption
      | apply more_lines_at_line_end]. }
  rewrite Hpc in *. unfold anchor_column in *.
  destruct (find_char is_LPAREN l0) as [k|] eqn:Ek; [|congruence].
  rewrite new_length_of_to_gint, last_line_app by assumption.
  pose proof (find_char_lt _ _ _ Ek) as Hk.
  set (line := (last_line pre ++ search_text sub) ++ firstn (S k) l0).
  assert (Hlow : length (search_text sub) + 1 <= column_of line).
  { unfold line, column_of. rewrite <- app_assoc, fold_left_app.
    pose proof (fold_advance_ge (search_text sub ++ firstn (S k) l0)
                  (fold_left advance_column (last_line pre) 0)) as H.
    rewrite length_app, length_firstn in H. lia. }
  assert (Hhigh : column_of line
                  <= 8 * length (last_line pre ++ search_text sub ++ l0)).
  { unfold line, column_of.
    pose proof (fold_advance_le
                  ((last_line pre ++ search_text sub) ++ firstn (S k) l0) 0) as H.
    unfold tab_width in H. rewrite !length_app, length_firstn in *. lia. }
  unfold new_length_of, g_utf8_strlen. rewrite to_gint_small; lia.
Qed.

Lemma do_substitution_loop_succeeds (s r : list gunichar) :
  within_a_line s ->
  forall (n : nat) (sub : Sub) (iter : nat),
    search_text sub = s -> replacement sub = r ->
    iter <= length (text (buffer sub)) ->
    length (unindent false (skipn iter (text (buffer sub)))) <= n ->
    (8 * (Z.of_nat (longest_from 0 (text (buffer sub)))
          + (Z.of_nat (length r) + 8) * Z.of_nat n)
     + Z.of_nat (length r) < 2147483648)%Z ->
    exists fuel sub', do_substitution_loop fuel sub iter = Some (Ok sub').
Proof.
  intros Hw. induction n as [|n IH]; intros sub iter Hs Hr Hiter HU Hfit.
  all: destruct (gtk_source_search_context_forward
                   (search_text sub) (text (buffer sub)) iter)
    as [[ms me]|] eqn:Ef;
    [|exists 1, sub; cbn [do_substitution_loop]; rewrite Ef; reflexivity].
  all: destruct (replace_at_match sub iter ms me Ef)
    as [Hle [Hme [pre [l0 [ls [Ht [Hlen [Hpre [Hl0 [Hls Hrep]]]]]]]]]].
  all: assert (Hskip : skipn iter (text (buffer sub))
                       = skipn iter pre ++ search_text sub ++ l0 ++ more_lines ls)
    by (rewrite Ht at 1; apply skipn_app_le; lia).
  all: assert (HUs : forall b,
                  length s + length (unindent false (l0 ++ more_lines ls))
                  <= length (unindent b (skipn iter (text (buffer sub)))))
    by (intros b; rewrite Hskip; apply unindent_app_length; intros b';
        rewrite Hs, (unindent_text s), length_app by assumption; lia).
  all: assert (Hs1 : 1 <= length s)
    by (destruct Hw as [_ Hw]; destruct s; [contradiction|simpl; lia]).
  all: specialize (HUs false).
  - lia.
  - set (t := text (buffer sub)) in *.
    assert (HsLF : noLF (search_text sub)) by (rewrite Hs; apply Hw).
    assert (Hline : length (last_line pre ++ search_text sub ++ l0)
                    <= longest_from 0 t).
    { rewrite Ht. rewrite (last_line_split pre) at 2.
      rewrite <- !app_assoc.
      replace (last_line pre ++ search_text sub ++ l0 ++ more_lines ls)
        with ((last_line pre ++ search_text sub ++ l0) ++ more_lines ls)
        by (rewrite <- !app_assoc; reflexivity).
      apply longest_from_holds.
      repeat (apply noLF_app; split); try assumption. apply last_line_noLF. }
    assert (Hslen : length (search_text sub) <= longest_from 0 t).
    { rewrite !length_app in Hline. lia. }
    assert (Hlines : Forall (fun l => length l <= longest_from 0 t) ls).
    { apply Forall_forall. intros l Hin.
      destruct (more_lines_holds l ls Hin) as [a [b Hab]].
      rewrite Ht, Hab.
      replace (pre ++ search_text sub ++ l0 ++ a ++ l ++ b)
        with ((pre ++ search_text sub ++ l0 ++ a) ++ l ++ b)
        by (rewrite <- !app_assoc; reflexivity).
      apply longest_from_holds. rewrite Forall_forall in Hls. apply Hls. assumption. }
    set (pc := get_parenthesis_column sub me) in *.
    assert (Hrun : exists ls1,
               (if (pc =? -1)%Z then Ok ls else realign_run sub pc ls) = Ok ls1
               /\ Forall2 same_text ls1 ls
               /\ Forall2 (fun l1 l => length l1 <= length l + (length r + 8)) ls1 ls).
    { destruct (pc =? -1)%Z eqn:Epc.
      - exists ls. split; [reflexivity|]. split.
        + clear. induction ls; constructor; [apply same_text_refl|assumption].
        + clear. induction ls; constructor; [lia|assumption].
      - apply Z.eqb_neq in Epc.
        assert (Hn : (0 <= new_length_of sub pc)%Z).
        { unfold pc. rewrite Hme, <- Hlen.
          apply (new_length_not_negative sub pre l0 ls Ht HsLF Hl0).
          - rewrite Hr. lia.
          - rewrite Hlen, <- Hme. exact Epc. }
        destruct (realign_run_ok sub pc ls Hn) as [ls1 Hls1].
        exists ls1. split; [assumption|]. split.
        + eapply realign_run_same_text; eassumption.
        + rewrite <- Hr. apply (realign_run_lengths sub pc ls ls1 Hls1 Epc).
          * eapply Forall_impl; [|exact Hlines]. intros l Hl. simpl in Hl.
            rewrite Hr. lia.
          * lia. }
    destruct Hrun as [ls1 [Hrun [Hsame Hlens]]].
    cbv zeta in Hrep. fold pc in Hrep. rewrite Hrun in Hrep.
    assert (Hls1 : Forall noLF ls1).
    { clear - Hsame Hls. induction Hsame as [|l1 l ls1 ls Hl _ IH]; [constructor|].
      inversion Hls; subst. constructor; [eapply same_text_noLF; eassumption|auto]. }
    set (sub1 := set_buffer sub
                   (mkBuffer (pre ++ replacement sub ++ l0 ++ more_lines ls1) None))
      in *.
    set (me1 := ms + length (replacement sub)) in *.
    assert (Hskip1 : skipn me1 (text (buffer sub1)) = l0 ++ more_lines ls1).
    { unfold sub1, me1. simpl. rewrite app_assoc, <- Hlen, <- length_app.
      apply skipn_app_exact. }
    assert (Hme1 : me1 <= length (text (buffer sub1))).
    { unfold sub1, me1. simpl. rewrite !length_app. lia. }
    assert (HU1 : length (unindent false (skipn me1 (text (buffer sub1)))) <= n).
    { rewrite Hskip1.
      rewrite (unindent_app_eq l0 (more_lines ls1) (more_lines ls)
                 (unindent_lines ls1 ls Hsame)).
      lia. }
    assert (Hlong : longest_from 0 (text (buffer sub1))
                    <= longest_from 0 t + (length r + 8)).
    { unfold sub1. cbn [text buffer set_buffer]. rewrite Ht.
      apply longest_from_app_le. intros c.
      rewrite Hr.
      pose proof (longest_from_inserted r (l0 ++ more_lines ls1) c) as H1.
      rewrite (longest_from_line l0) in H1 by assumption.
      rewrite (longest_from_line (search_text sub)), (longest_from_line l0)
        by assumption.
      pose proof (longest_from_lines (length r + 8) ls1 ls Hlens Hls1 Hls
                    (c + length (search_text sub) + length l0)
                    (c + length r + length l0) ltac:(lia)) as H2.
      lia. }
    destruct (IH sub1 me1 Hs Hr Hme1 HU1) as [fuel [sub' Hloop]].
    { lia. }
    exists (S fuel), sub'. subst t. cbn [do_substitution_loop]. rewrite Ef, Hrep.
    exact Hloop.
Qed.

(** X14: a run that does not abort.  For a search text without line feed
    that starts with a character that is not white space, in a buffer short
    enough for the columns of its lines to fit a [gint] all along the run,
    [do_substitution] returns: no assertion fails. *)
Theorem single_line_search_run_succeeds (sub : Sub) :
  within_a_line (search_text sub) ->
  (8 * Z.of_nat (length (text (buffer sub)))
   * (Z.of_nat (length (replacement sub)) + 9)
   + Z.of_nat (length (replacement sub)) < 2147483648)%Z ->
  exists fuel sub', do_substitution fuel sub = Some (Ok sub').
Proof.
  intros Hw Hfit. unfold do_substitution, gtk_text_buffer_get_start_iter.
  apply (do_substitution_loop_succeeds (search_text sub) (replacement sub) Hw
           (length (text (buffer sub))) sub 0 eq_refl eq_refl (Nat.le_0_l _)).
  - apply unindent_length.
  - pose proof (longest_from_length (text (buffer sub)) 0). nia.
Qed.

Lemma single_line_search_run_succeeds_witness :
  exists fuel sub',
    do_substitution fuel
      (mkSub (chars "function_call") (chars "f") []
         (mkBuffer (text_of_lines [chars "function_call (param1,";
                                   chars "               param2);"]) None))
    = Some (Ok sub').
Proof.
  apply (single_line_search_run_succeeds
           (mkSub (chars "function_call") (chars "f") []
              (mkBuffer (text_of_lines [chars "function_call (param1,";
                                        chars "               param2);"]) None)));
    [ split; [each | reflexivity] | computed ].
Defined.
